(** * resumeanalyzer: text normalisation, prompt construction, question
    extraction and document emission

    A shallow embedding of the string-processing functions of
    [resumeanalyzer.py] and the properties its specification states about
    them.

    A Python [str] is a sequence of Unicode code points; it is modelled as a
    list of code points ([N]).  The builtins the program calls ([str.strip],
    [str.split], [str.lower], [in], [re.sub]) are modelled with the behaviour
    CPython gives them.  The two Unicode tables that are too large to write
    down (lower-casing and the decimal-digit class outside ASCII) are
    variables of the section that embeds the question extractor; on ASCII
    text the model consults neither. *)

From Stdlib Require Import List NArith Bool Arith Lia String Ascii.
Import ListNotations.

Local Open Scope N_scope.

(** ** Strings as code-point sequences *)

Definition char := N.
Definition str := list char.

Definition NL : char := 10.       (* '\n' *)
Definition TAB : char := 9.       (* '\t' *)
Definition SP : char := 32.       (* ' '  *)
Definition HYPHEN : char := 45.   (* '-'  *)
Definition DOT : char := 46.      (* '.'  *)
Definition COLON : char := 58.    (* ':'  *)
Definition BULLET : char := 8226. (* U+2022 *)

(** An ASCII literal of the source, as a code-point sequence. *)
Definition lit (s : string) : str :=
  List.map N_of_ascii (list_ascii_of_string s).

(** [str.isspace] on one code point, which is also the class [\s] of [re] on
    [str] patterns and the set [str.strip()] and [str.split()] remove:
    U+0009..U+000D, U+001C..U+0020, U+0085, U+00A0, U+1680, U+2000..U+200A,
    U+2028, U+2029, U+202F, U+205F, U+3000. *)
Definition isspace (c : char) : bool :=
  ((9 <=? c) && (c <=? 13)) || ((28 <=? c) && (c <=? 32))
  || (c =? 133) || (c =? 160) || (c =? 5760)
  || ((8192 <=? c) && (c <=? 8202))
  || (c =? 8232) || (c =? 8233) || (c =? 8239) || (c =? 8287) || (c =? 12288).

Fixpoint takewhile (p : char -> bool) (s : str) : str :=
  match s with
  | c :: r => if p c then c :: takewhile p r else []
  | [] => []
  end.

Fixpoint dropwhile (p : char -> bool) (s : str) : str :=
  match s with
  | c :: r => if p c then dropwhile p r else s
  | [] => []
  end.

(** [s.lstrip()], [s.rstrip()], [s.strip()] with no argument. *)
Definition lstrip (s : str) : str := dropwhile isspace s.
Definition rstrip (s : str) : str := rev (dropwhile isspace (rev s)).
Definition strip (s : str) : str := rstrip (lstrip s).

(** [s.startswith(p)] *)
Fixpoint startswith (p s : str) : bool :=
  match p, s with
  | [], _ => true
  | a :: p', c :: s' => (a =? c) && startswith p' s'
  | _ :: _, [] => false
  end.

(** [needle in hay] *)
Fixpoint contains (needle hay : str) : bool :=
  startswith needle hay
  || match hay with
     | [] => false
     | _ :: hay' => contains needle hay'
     end.

(** [s.split(sep)] for a one-character separator: never empty, and a
    trailing separator yields a final empty field. *)
Fixpoint split_on (sep : char) (s : str) : list str :=
  match s with
  | [] => [[]]
  | c :: r =>
      if c =? sep then [] :: split_on sep r
      else match split_on sep r with
           | f :: fs => (c :: f) :: fs
           | [] => [[c]]
           end
  end.

(** [s.split()]: the maximal runs of non-whitespace; [cur] is the word being
    read, reversed. *)
Fixpoint split_ws_from (cur : str) (s : str) : list str :=
  match s with
  | [] => match cur with [] => [] | _ => [rev cur] end
  | c :: r =>
      if isspace c
      then match cur with
           | [] => split_ws_from [] r
           | _ => rev cur :: split_ws_from [] r
           end
      else split_ws_from (c :: cur) r
  end.

Definition split_ws (s : str) : list str := split_ws_from [] s.

(** ** The fragment of [re] the program uses

    Every pattern of the source is a sequence of single-character items,
    each matched once or under a greedy [*] or [+], optionally anchored by
    [^].  The matcher is the backtracking one: a greedy item takes as many
    characters as it can and gives them back one by one until the rest of
    the pattern matches.  A match is reported by its length. *)

Inductive item : Type :=
| One (p : char -> bool)
| Star (p : char -> bool)
| Plus (p : char -> bool).

Record regex : Type := { anchored : bool; items : list item }.

Fixpoint greedy (p : char -> bool) (k : str -> option nat) (s : str)
  : option nat :=
  match s with
  | c :: r =>
      if p c
      then match greedy p k r with
           | Some n => Some (S n)
           | None => k s
           end
      else k s
  | [] => k s
  end.

Fixpoint match_here (pat : list item) (s : str) : option nat :=
  match pat with
  | [] => Some 0%nat
  | One p :: pat' =>
      match s with
      | c :: r => if p c then option_map S (match_here pat' r) else None
      | [] => None
      end
  | Star p :: pat' => greedy p (match_here pat') s
  | Plus p :: pat' =>
      match s with
      | c :: r =>
          if p c then option_map S (greedy p (match_here pat') r) else None
      | [] => None
      end
  end.

(** The scan of [re.sub]: [skip] characters of the match found last are
    still to be passed over.  Matches are leftmost and do not overlap; an
    empty match is replaced too and the scan then copies one character. *)
Fixpoint sub_scan (pat : list item) (repl : str) (skip : nat) (s : str)
  : str :=
  match s with
  | [] =>
      match skip, match_here pat [] with
      | O, Some _ => repl
      | _, _ => []
      end
  | c :: r =>
      match skip with
      | S k => sub_scan pat repl k r
      | O =>
          match match_here pat s with
          | Some (S n) => repl ++ sub_scan pat repl n r
          | Some O => repl ++ c :: sub_scan pat repl 0 r
          | None => c :: sub_scan pat repl 0 r
          end
      end
  end.

(** [re.sub(pattern, repl, s)].  Without [re.MULTILINE] an anchored pattern
    can match at offset 0 only. *)
Definition re_sub (re : regex) (repl : str) (s : str) : str :=
  if anchored re
  then match match_here (items re) s with
       | Some n => repl ++ skipn n s
       | None => s
       end
  else sub_scan (items re) repl 0 s.

(** ** clean_text *)

(** [r'\n\s*\n'] *)
Definition re_blank_lines : regex :=
  {| anchored := false;
     items := [One (N.eqb NL); Star isspace; One (N.eqb NL)] |}.

(** [r' +'] *)
Definition re_spaces : regex :=
  {| anchored := false; items := [Plus (N.eqb SP)] |}.

Definition clean_text (text : str) : str :=
  let text := re_sub re_blank_lines [NL; NL] text in
  let text := re_sub re_spaces [SP] text in
  strip text.

(** ** build_analysis_prompt *)

Definition analysis_prompt_head : str := lit "
You are a professional resume analyst and career coach. Analyze the following resume comprehensively:

RESUME TEXT:
".

Definition analysis_prompt_tail : str := lit "

ANALYSIS REQUIREMENTS:
1. Overall Score (0-100) with justification
2. Strengths (what works well)
3. Weaknesses (specific areas needing improvement)
4. ATS Compatibility assessment
5. Industry-specific recommendations
6. Missing Information Needed (list specific questions to ask the candidate)

Format your response clearly with headers for each section.
".

(** The f-string: the resume text is interpolated as it is. *)
Definition build_analysis_prompt (resume_text : str) : str :=
  analysis_prompt_head ++ resume_text ++ analysis_prompt_tail.

(** The six instruction labels of the prompt, as the template spells them. *)
Definition analysis_labels : list str :=
  [ lit "Overall Score"; lit "Strengths"; lit "Weaknesses";
    lit "ATS Compatibility"; lit "Industry-specific recommendations";
    lit "Missing Information Needed" ].

(** ** extract_questions_from_analysis *)

Definition question_indicators : list str :=
  [ lit "missing information"; lit "information needed"; lit "questions";
    lit "additional details"; lit "clarification needed" ].

(** The tuple given to [line.startswith]. *)
Definition continuation_prefixes : list str :=
  [ [SP]; [HYPHEN]; [BULLET]; lit "1"; lit "2"; lit "3"; lit "4"; lit "5" ].

Definition fallback_questions : list str :=
  [ lit "What specific achievements or metrics can you provide?";
    lit "Are there any additional skills or certifications to highlight?";
    lit "What is your target job role or industry?";
    lit "Any additional experiences or projects to include?" ].

Definition is_ascii (c : char) : bool := c <? 128.

Definition ascii_lower (c : char) : char :=
  if (65 <=? c) && (c <=? 90) then c + 32 else c.

(** Truth value of a [str]. *)
Definition truthy (s : str) : bool :=
  match s with [] => false | _ :: _ => true end.

Section Extractor.

(** [str.lower] on a string that has a non-ASCII code point (full Unicode
    case mapping), and the decimal digits (category Nd) beyond ASCII. *)
Variable unicode_lower : str -> str.
Variable unicode_decimal : char -> bool.

Definition lower (s : str) : str :=
  if forallb is_ascii s then List.map ascii_lower s else unicode_lower s.

(** The class [\d] on a [str] pattern. *)
Definition isdecimal (c : char) : bool :=
  if is_ascii c then (48 <=? c) && (c <=? 57) else unicode_decimal c.

(** The class of [r'^[-•\d\.\s]+']. *)
Definition bullet_class (c : char) : bool :=
  (c =? HYPHEN) || (c =? BULLET) || isdecimal c || (c =? DOT) || isspace c.

Definition re_bullet : regex :=
  {| anchored := true; items := [Plus bullet_class] |}.

(** [line.startswith((' ', '-', '•', '1', '2', '3', '4', '5'))] *)
Definition starts_as_continuation (line : str) : bool :=
  existsb (fun p => startswith p line) continuation_prefixes.

(** [':' in line and len(line.split(':')[0].split()) < 4] *)
Definition is_short_label (line : str) : bool :=
  contains [COLON] line
  && (List.length (split_ws (hd [] (split_on COLON line))) <? 4)%nat.

(** The state of the loop: [in_question_section] and [questions]. *)
Definition scan_state : Type := (bool * list str)%type.

(** One iteration of the loop over the lines. *)
Definition scan_line (st : scan_state) (line : str) : scan_state :=
  let '(in_question_section, questions) := st in
  let line_lower := strip (lower line) in
  if existsb (fun indicator => contains indicator line_lower)
             question_indicators
  then (true, questions)
  else
    let in_question_section :=
      if in_question_section && truthy (strip line)
         && negb (starts_as_continuation line)
      then if is_short_label line then false else in_question_section
      else in_question_section in
    if in_question_section && truthy (strip line)
    then
      let question := strip (re_sub re_bullet [] line) in
      if truthy question && (10 <? List.length question)%nat
      then (in_question_section, questions ++ [question])
      else (in_question_section, questions)
    else (in_question_section, questions).

(** The condition of the first [if] of the loop body, on its own. *)
Definition mentions_indicator (line : str) : bool :=
  existsb (fun indicator => contains indicator (strip (lower line)))
          question_indicators.

(** No indicator phrase in the lower-cased line. *)
Definition free_of_indicators (line : str) : bool :=
  negb (existsb (fun indicator => contains indicator (lower line))
                question_indicators).

Definition scan_lines (lines : list str) : scan_state :=
  fold_left scan_line lines (false, []).

(** The questions collected by the loop, before the fallback and the cut. *)
Definition collected_questions (analysis_text : str) : list str :=
  snd (scan_lines (split_on NL analysis_text)).

Definition extract_questions_from_analysis (analysis_text : str)
  : list str :=
  let questions := collected_questions analysis_text in
  let questions :=
    match questions with
    | [] => fallback_questions
    | _ :: _ => questions
    end in
  firstn 6 questions.

End Extractor.

(** ** Document emitters

    The document libraries are outside the program; each call into them
    either returns or raises.  [outcome] is the result of a Python
    expression, an exception carrying its message. *)

Definition bytes := list N.
Definition exn := str.

Inductive outcome (A : Type) : Type :=
| Returned (a : A)
| Raised (e : exn).
Arguments Returned {A} a.
Arguments Raised {A} e.

Definition bind {A B : Type} (c : outcome A) (k : A -> outcome B)
  : outcome B :=
  match c with
  | Returned a => k a
  | Raised e => Raised e
  end.

Notation "x <- c ;; k" := (bind c (fun x => k))
  (at level 61, c at next level, right associativity).

(** [for x in xs: d = body(d, x)], stopping at the first exception. *)
Fixpoint for_each {D A : Type} (body : D -> A -> outcome D) (xs : list A)
  (d : D) : outcome D :=
  match xs with
  | [] => Returned d
  | x :: xs' => d' <- body d x ;; for_each body xs' d'
  end.

(** python-docx, as far as the program uses it. *)
Record DocxLib (D : Type) : Type := {
  Document : outcome D;
  add_paragraph : D -> str -> outcome D;
  save : D -> outcome bytes   (* the bytes [doc.save] writes to the stream *)
}.
Arguments Document {D}.
Arguments add_paragraph {D}.
Arguments save {D}.

Definition create_docx_from_text {D : Type} (docx : DocxLib D)
  (resume_text : str) : outcome bytes :=
  doc <- Document docx ;;
  doc <- for_each
           (fun doc line =>
              match strip line with
              | [] => add_paragraph docx doc []
              | _ :: _ => add_paragraph docx doc line
              end)
           (split_on NL resume_text) doc ;;
  file_stream <- save docx doc ;;
  Returned file_stream.

(** fpdf2, as far as the program uses it.  The cell width
    [pdf.w - 2 * pdf.l_margin] is a function of the document and stays
    inside [multi_cell]. *)
Inductive pdf_call : Type :=
| set_auto_page_break (margin : nat)
| add_page
| add_font (family style fname : str)
| set_font (family style : str) (size : nat)
| ln (h : nat)
| multi_cell (h : nat) (txt : str).

Record FpdfLib (P : Type) : Type := {
  FPDF : outcome P;
  call : P -> pdf_call -> outcome P;
  output : P -> outcome (str + bytes)   (* [pdf.output(dest='S')] *)
}.
Arguments FPDF {P}.
Arguments call {P}.
Arguments output {P}.

(** A digit of a number, as [%d] and [%x] print it. *)
Definition digit_char (d : N) : char := if d <? 10 then 48 + d else 87 + d.

(** The digits of [n] in [base], most significant first. *)
Fixpoint digits_from (fuel : nat) (base n : N) (acc : str) : str :=
  match fuel with
  | O => acc
  | S fuel' =>
      let acc := digit_char (n mod base) :: acc in
      if n / base =? 0 then acc else digits_from fuel' base (n / base) acc
  end.

Definition digits (base n : N) : str :=
  digits_from (S (N.to_nat (N.log2 n))) base n [].

(** [%d] *)
Definition decimal (n : nat) : str := digits 10 (N.of_nat n).

(** [%02x], [%04x], [%08x] *)
Definition hex_padded (width : nat) (n : N) : str :=
  let ds := digits 16 n in
  repeat 48 (width - List.length ds) ++ ds.

(** [str(e)] of the [UnicodeEncodeError] that [s.encode('latin1')] raises:
    the error names the first run of characters above U+00FF. *)
Definition latin1_error (s : str) : exn :=
  let encodable := fun c => c <? 256 in
  let start := List.length (takewhile encodable s) in
  let bad := takewhile (fun c => negb (encodable c)) (skipn start s) in
  match bad with
  | [badchar] =>
      lit "'latin-1' codec can't encode character '"
      ++ (if badchar <=? 255 then 92 :: lit "x" ++ hex_padded 2 badchar
          else if badchar <=? 65535 then 92 :: lit "u" ++ hex_padded 4 badchar
          else 92 :: lit "U" ++ hex_padded 8 badchar)
      ++ lit "' in position " ++ decimal start
      ++ lit ": ordinal not in range(256)"
  | _ =>
      lit "'latin-1' codec can't encode characters in position "
      ++ decimal start ++ lit "-" ++ decimal (start + List.length bad - 1)
      ++ lit ": ordinal not in range(256)"
  end.

(** [s.encode('latin1')] *)
Definition encode_latin1 (s : str) : outcome bytes :=
  if forallb (fun c => c <? 256) s then Returned s
  else Raised (latin1_error s).

(** [s.endswith(':')] *)
Definition ends_with_colon (s : str) : bool :=
  match rev s with
  | c :: _ => c =? COLON
  | [] => false
  end.

Section PdfEmitter.

Variable isupper : str -> bool.              (* [str.isupper] *)
Variable textwrap_fill : str -> nat -> str.  (* [textwrap.fill] *)

Definition pdf_line {P : Type} (fpdf : FpdfLib P) (pdf : P) (line : str)
  : outcome P :=
  let line := strip line in
  if truthy line then
    if isupper line || ends_with_colon line then
      pdf <- call fpdf pdf (set_font (lit "DejaVu") (lit "B") 12) ;;
      pdf <- call fpdf pdf (ln 2) ;;
      pdf <- call fpdf pdf (multi_cell 6 (textwrap_fill line 90)) ;;
      call fpdf pdf (ln 1)
    else
      pdf <- call fpdf pdf (set_font (lit "DejaVu") [] 10) ;;
      call fpdf pdf (multi_cell 5 (textwrap_fill line 90))
  else call fpdf pdf (ln 3).

(** The body of the [try]. *)
Definition create_pdf_body {P : Type} (fpdf : FpdfLib P)
  (resume_text : str) : outcome bytes :=
  pdf <- FPDF fpdf ;;
  pdf <- call fpdf pdf (set_auto_page_break 15) ;;
  pdf <- call fpdf pdf add_page ;;
  pdf <- call fpdf pdf
           (add_font (lit "DejaVu") [] (lit "DejaVuSans.ttf")) ;;
  pdf <- call fpdf pdf
           (add_font (lit "DejaVu") (lit "B") (lit "DejaVuSans-Bold.ttf")) ;;
  pdf <- call fpdf pdf (set_font (lit "DejaVu") [] 11) ;;
  pdf <- for_each (pdf_line fpdf) (split_on NL resume_text) pdf ;;
  pdf_data <- output fpdf pdf ;;
  match pdf_data with
  | inl s => encode_latin1 s
  | inr b => Returned b
  end.

(** [try: ... except Exception as e: st.error(...); return b""].  The
    first component is what [st.error] displays. *)
Definition create_pdf_from_text {P : Type} (fpdf : FpdfLib P)
  (resume_text : str) : list str * outcome bytes :=
  match create_pdf_body fpdf resume_text with
  | Returned pdf_bytes => ([], Returned pdf_bytes)
  | Raised e => ([lit "Error creating PDF: " ++ e], Returned [])
  end.

End PdfEmitter.

(** ** str.join and str equality *)

(** [sep.join(parts)] *)
Fixpoint join (sep : str) (parts : list str) : str :=
  match parts with
  | [] => []
  | p :: ps =>
      match ps with
      | [] => p
      | _ :: _ => p ++ sep ++ join sep ps
      end
  end.

(** [a == b] on [str] *)
Fixpoint str_eqb (a b : str) : bool :=
  match a, b with
  | [], [] => true
  | x :: a', y :: b' => (x =? y) && str_eqb a' b'
  | _, _ => false
  end.

(** ** build_rewrite_prompt *)

(** A [dict] with [str] keys and values, by its bindings; a lookup finds the
    first binding of the key. *)
Definition dict := list (str * str).

Fixpoint dict_get (d : dict) (key : str) : option str :=
  match d with
  | [] => None
  | (k, v) :: d' => if str_eqb k key then Some v else dict_get d' key
  end.

(** [d[key]]: a missing key raises [KeyError], whose message is the key in
    quotes. *)
Definition getitem (d : dict) (key : str) : outcome str :=
  match dict_get d key with
  | Some v => Returned v
  | None => Raised ([39] ++ key ++ [39])
  end.

Definition style_guide_format : str := lit "
STYLE PREFERENCES:
- Format: ".

Definition style_guide_tone : str := lit "
- Tone: ".

Definition style_guide_length : str := lit "
- Length: ".

Definition style_guide_industry : str := lit "
- Industry Focus: ".

Definition style_guide_end : str := lit "
".

Definition rewrite_prompt_head : str := lit "
You are an expert resume writer. Using the information below, create a complete, professional, and ATS-friendly resume.
- Use all available details from the original resume and the user's answers.
- If any section is missing or incomplete, intelligently fill in the gaps with realistic, relevant content based on the candidate's background and the target industry.
- Improve clarity, phrasing, and formatting throughout.
- Do NOT include placeholders or incomplete sections.
- Return ONLY the finished resume, no commentary.

".

Definition rewrite_prompt_resume : str := lit "

EXISTING RESUME:
".

Definition rewrite_prompt_info : str := lit "

ADDITIONAL INFORMATION FROM USER:
".

Definition rewrite_prompt_tail : str := lit "

REQUIREMENTS:
- Use strong action verbs
- Quantify achievements where possible
- Ensure proper formatting and structure
- Include relevant keywords for ATS

RESUME:
".


(** The two f-strings: the four style values are looked up in the order the
    template names them, then the prompt is assembled. *)
Definition build_rewrite_prompt (resume_text extra_info : str)
  (style_preferences : dict) : outcome str :=
  format_value <- getitem style_preferences (lit "format") ;;
  tone_value <- getitem style_preferences (lit "tone") ;;
  length_value <- getitem style_preferences (lit "length") ;;
  industry_value <- getitem style_preferences (lit "industry") ;;
  let style_guide :=
    style_guide_format ++ format_value
    ++ style_guide_tone ++ tone_value
    ++ style_guide_length ++ length_value
    ++ style_guide_industry ++ industry_value
    ++ style_guide_end in
  Returned (rewrite_prompt_head ++ style_guide
            ++ rewrite_prompt_resume ++ resume_text
            ++ rewrite_prompt_info ++ extra_info
            ++ rewrite_prompt_tail).

(** ** setup_gemini *)

(** What the script shows, and how a run of it goes on: [st.stop()] ends
    the run. *)
Inductive ui_event : Type :=
| st_error (body : str)
| st_markdown (body : str)
| st_warning (body : str).

Inductive script (A : Type) : Type :=
| Continues (a : A)
| Stops.
Arguments Continues {A} a.
Arguments Stops {A}.

(** The surroundings of [setup_gemini]: the secrets store, the process
    environment, the sidebar field and the Gemini client library. *)
Record GeminiEnv (M : Type) : Type := {
  secrets_api_key : outcome str;    (* [st.secrets["GEMINI_API_KEY"]] *)
  getenv_api_key : option str;      (* [os.getenv("GEMINI_API_KEY")] *)
  sidebar_text_input : str;         (* the value of [st.text_input] *)
  genai_configure : str -> outcome unit;
  GenerativeModel : str -> outcome M
}.
Arguments secrets_api_key {M}.
Arguments getenv_api_key {M}.
Arguments sidebar_text_input {M}.
Arguments genai_configure {M}.
Arguments GenerativeModel {M}.

Definition api_key_required : str := [128273] ++ lit " **API Key Required**".

Definition api_key_instructions : str :=
  lit "
        Please provide your Google Gemini API key. You can:
        1. Set it as an environment variable: `GEMINI_API_KEY=your_key_here`
        2. Create a `.streamlit/secrets.toml` file with: `GEMINI_API_KEY = " ++ [34] ++ lit "your_key_here" ++ [34] ++ lit "`
        3. Enter it in the sidebar (not recommended for production)
        
        Get your API key from: https://makersuite.google.com/app/apikey
        ".

Definition development_mode : str := [9888; 65039] ++ lit " Development Mode".

(** [not api_key], for [None] or a [str]. *)
Definition no_key (api_key : option str) : bool :=
  match api_key with
  | Some key => negb (truthy key)
  | None => true
  end.

Definition setup_gemini {M : Type} (env : GeminiEnv M)
  : list ui_event * script M :=
  let api_key :=
    match secrets_api_key env with
    | Returned key => Some key
    | Raised _ => getenv_api_key env
    end in
  let '(shown, api_key) :=
    if no_key api_key
    then ([ st_error api_key_required;
            st_markdown api_key_instructions;
            st_warning development_mode ],
          Some (sidebar_text_input env))
    else ([], api_key) in
  match api_key with
  | Some (c :: key') =>
      let key := c :: key' in
      match genai_configure env key with
      | Returned _ =>
          match GenerativeModel env (lit "gemini-1.5-flash") with
          | Returned model => (shown, Continues model)
          | Raised e =>
              (shown ++ [st_error (lit "Failed to initialize Gemini: " ++ e)],
               Stops)
          end
      | Raised e =>
          (shown ++ [st_error (lit "Failed to initialize Gemini: " ++ e)],
           Stops)
      end
  | _ => (shown, Stops)
  end.

(** ** extract_text_from_pdf and extract_text_from_docx *)

(** PyMuPDF and the uploaded file, as far as the program uses them. *)
Record FitzLib (F D : Type) : Type := {
  file_read : F -> outcome bytes;      (* [uploaded_file.read()] *)
  fitz_open : bytes -> outcome D;      (* [fitz.open(stream=..., filetype="pdf")] *)
  page_count : D -> nat;
  get_text : D -> nat -> outcome str;  (* [doc.load_page(i).get_text("text")] *)
  doc_close : D -> outcome unit
}.
Arguments file_read {F D}.
Arguments fitz_open {F D}.
Arguments page_count {F D}.
Arguments get_text {F D}.
Arguments doc_close {F D}.

(** The body of the [try]: the pages are read in order. *)
Definition extract_pdf_body {F D : Type} (fitz : FitzLib F D)
  (uploaded_file : F) : outcome str :=
  stream <- file_read fitz uploaded_file ;;
  doc <- fitz_open fitz stream ;;
  pages <- for_each
             (fun pages i =>
                page <- get_text fitz doc i ;; Returned (pages ++ [page]))
             (seq 0 (page_count fitz doc)) [] ;;
  let text := join [NL] pages in
  closed <- doc_close fitz doc ;;
  Returned text.

(** The first component is what [st.error] displays. *)
Definition extract_text_from_pdf {F D : Type} (fitz : FitzLib F D)
  (uploaded_file : F) : list str * str :=
  match extract_pdf_body fitz uploaded_file with
  | Returned text => ([], text)
  | Raised e => ([lit "Error reading PDF: " ++ e], [])
  end.

(** python-docx as a reader: [docx.Document(file)] and the texts of
    [doc.paragraphs]. *)
Record DocxReader (F D : Type) : Type := {
  open_document : F -> outcome D;
  paragraph_texts : D -> list str
}.
Arguments open_document {F D}.
Arguments paragraph_texts {F D}.

Definition extract_text_from_docx {F D : Type} (reader : DocxReader F D)
  (uploaded_file : F) : list str * str :=
  match open_document reader uploaded_file with
  | Returned doc => ([], join [NL] (paragraph_texts reader doc))
  | Raised e => ([lit "Error reading DOCX: " ++ e], [])
  end.

(** ** Steps of main *)

(** Lines 305-314: the text of one uploaded file, or [None] when the file
    is given up with "Could not extract text from file". *)
Definition main_resume_text {F D1 D2 : Type} (fitz : FitzLib F D1)
  (reader : DocxReader F D2) (file_type : F -> str) (uploaded_file : F)
  : list str * option str :=
  let '(shown, resume_text) :=
    if str_eqb (file_type uploaded_file) (lit "application/pdf")
    then extract_text_from_pdf fitz uploaded_file
    else extract_text_from_docx reader uploaded_file in
  let resume_text := clean_text resume_text in
  if negb (truthy resume_text)
  then (shown ++ [lit "Could not extract text from file"], None)
  else (shown, Some resume_text).

(** Line 320: [resume_text[:2000] + ("..." if len(resume_text) > 2000 else "")] *)
Definition main_preview (resume_text : str) : str :=
  firstn 2000 resume_text
  ++ (if (2000 <? List.length resume_text)%nat then lit "..." else []).

(** Lines 275-280: the dict literal, with [industry_focus or "General"]. *)
Definition main_style_preferences
  (format_style tone_style length_pref industry_focus : str) : dict :=
  [ (lit "format", format_style);
    (lit "tone", tone_style);
    (lit "length", length_pref);
    (lit "industry",
     if truthy industry_focus then industry_focus else lit "General") ].

(** [answers.get(i, "")] on the dict of answers keyed by question index. *)
Definition answers_get (answers : nat -> option str) (i : nat) : str :=
  match answers i with
  | Some answer => answer
  | None => []
  end.

(** Lines 376-380: the loop over [enumerate(questions)], from index [i]. *)
Fixpoint process_answers (i : nat) (questions : list str)
  (answers : nat -> option str) (processed_answers : list str) : list str :=
  match questions with
  | [] => processed_answers
  | question :: questions' =>
      let answer := strip (answers_get answers i) in
      let processed_answers :=
        if truthy answer
        then processed_answers
             ++ [lit "Q: " ++ question ++ [NL] ++ lit "A: " ++ answer]
        else processed_answers in
      process_answers (S i) questions' answers processed_answers
  end.

(** Lines 376-392: the prompt of the rewrite request; [None] when no
    answer was given and the warning is shown instead. *)
Definition main_rewrite_prompt (resume_text : str) (questions : list str)
  (answers : nat -> option str) (style_preferences : dict)
  : option (outcome str) :=
  match process_answers 0 questions answers [] with
  | [] => None
  | processed_answers =>
      let extra_info := join [NL; NL] processed_answers in
      Some (build_rewrite_prompt resume_text extra_info style_preferences)
  end.

(** ** Sample inputs

    Stand-ins for the Unicode tables, for running the extractor on ASCII
    text, and document libraries whose serialisation step fails. *)

Definition sample_unicode_lower (s : str) : str := s.
Definition sample_unicode_decimal (_ : char) : bool := false.

Definition sample_analysis : str := lit "Missing Information Needed:
1. What was your role at Company X?
2. Can you quantify your sales results?
Industry Recommendations:
Consider emphasizing leadership.".

Definition sample_no_header : str := lit "Strengths:
- Clear layout and consistent formatting
Weaknesses:
- Few measurable results".


Definition disk_full : exn := lit "No space left on device".

(** A python-docx whose documents are their paragraphs and whose [save]
    raises. *)
Definition docx_save_fails : DocxLib (list str) :=
  {| Document := Returned [];
     add_paragraph := fun doc text => Returned (doc ++ [text]);
     save := fun _ => Raised disk_full |}.

(** An fpdf2 whose documents are the calls made and whose [output]
    raises. *)
Definition fpdf_output_fails : FpdfLib (list pdf_call) :=
  {| FPDF := Returned [];
     call := fun pdf c => Returned (pdf ++ [c]);
     output := fun _ => Raised disk_full |}.

(** ** Normal forms of the two substitutions

    The shapes the two [re.sub] calls of [clean_text] establish, as
    decidable predicates on the text. *)

(** No newline in the whitespace run the text starts with. *)
Fixpoint nl_free_gap (s : str) : bool :=
  match s with
  | [] => true
  | c :: r =>
      if c =? NL then false else if isspace c then nl_free_gap r else true
  end.

(** After a newline: at most one more newline, and it comes at once. *)
Definition gap_ok (s : str) : bool :=
  match s with
  | [] => true
  | c :: r => if c =? NL then nl_free_gap r else nl_free_gap s
  end.

(** Two newlines with only whitespace between them are adjacent, and no
    third one follows through whitespace. *)
Fixpoint blank_collapsed (s : str) : bool :=
  match s with
  | [] => true
  | c :: r => (negb (c =? NL) || gap_ok r) && blank_collapsed r
  end.

(** No two adjacent spaces. *)
Fixpoint spaces_collapsed (s : str) : bool :=
  match s with
  | [] => true
  | c :: r => negb ((c =? SP) && startswith [SP] r) && spaces_collapsed r
  end.

(** A run of spaces replaced by its last space. *)
Fixpoint squeeze (s : str) : str :=
  match s with
  | [] => []
  | c :: r => if (c =? SP) && startswith [SP] r then squeeze r
              else c :: squeeze r
  end.

(** The whitespace run after a newline, as the pattern [\s*\n] sees it. *)
Definition blank_gap (s : str) : option nat :=
  greedy isspace (match_here [One (N.eqb NL)]) s.

(** ** Definitions for the further properties *)


Definition free_of (sep : char) (s : str) : bool :=
  forallb (fun c => negb (c =? sep)) s.

Section MarkedItem.

Variable unicode_lower : str -> str.
Variable unicode_decimal : char -> bool.

(** An item of a question list, a marker such as ["- "] or ["1. "] and the
    question after it, that the scan takes as it is written. *)
Definition item_ok (item : str * str) : bool :=
  let '(marker, question) := item in
  starts_as_continuation marker
  && forallb (bullet_class unicode_decimal) marker
  && free_of NL (marker ++ question)
  && (10 <? List.length question)%nat
  && match question with
     | c :: _ => negb (bullet_class unicode_decimal c)
     | [] => false
     end
  && match rev question with
     | c :: _ => negb (isspace c)
     | [] => false
     end
  && negb (mentions_indicator unicode_lower (marker ++ question)).

End MarkedItem.

Definition item_line (item : str * str) : str := fst item ++ snd item.

(** The prompt for given style values. *)
Definition rewrite_prompt_of
  (format_value tone_value length_value industry_value : str)
  (resume_text extra_info : str) : str :=
  rewrite_prompt_head
  ++ (style_guide_format ++ format_value
      ++ style_guide_tone ++ tone_value
      ++ style_guide_length ++ length_value
      ++ style_guide_industry ++ industry_value
      ++ style_guide_end)
  ++ rewrite_prompt_resume ++ resume_text
  ++ rewrite_prompt_info ++ extra_info
  ++ rewrite_prompt_tail.

(** The entry of one answered question. *)
Definition answer_entry (question answer : str) : str :=
  lit "Q: " ++ question ++ [NL] ++ lit "A: " ++ answer.

(** The three notices shown when neither the secrets nor the environment
    give a key. *)
Definition key_prompts : list ui_event :=
  [ st_error api_key_required;
    st_markdown api_key_instructions;
    st_warning development_mode ].

(** A setting without a secrets file, with the key in the environment, and
    a client library that accepts any key. *)
Definition env_with_variable : GeminiEnv nat :=
  {| secrets_api_key := Raised (lit "No secrets files found");
     getenv_api_key := Some (lit "AIza-from-env");
     sidebar_text_input := [];
     genai_configure := fun _ => Returned tt;
     GenerativeModel := fun _ => Returned 7%nat |}.

(** A PyMuPDF whose files and documents are their page texts; [fails]
    makes [close] raise. *)
Definition fitz_pages (fails : bool) : FitzLib (list str) (list str) :=
  {| file_read := fun pages => Returned (join [12] pages);
     fitz_open := fun stream => Returned (split_on 12 stream);
     page_count := fun doc => List.length doc;
     get_text := fun doc i =>
       match nth_error doc i with
       | Some t => Returned t
       | None => Raised (lit "page not in document")
       end;
     doc_close := fun _ =>
       if fails then Raised (lit "document closed") else Returned tt |}.

(** A stand-in for the reader in sample runs: its files and documents are
    lists of paragraph texts.  (python-docx itself stores a paragraph as
    XML and does not return every text unchanged.) *)
Definition reader_paragraphs : DocxReader (list str) (list str) :=
  {| open_document := fun file => Returned file;
     paragraph_texts := fun doc => doc |}.

(** A python-docx whose documents are their paragraphs, with any
    serialisation. *)
Definition docx_paragraphs (serialise : list str -> outcome bytes)
  : DocxLib (list str) :=
  {| Document := Returned [];
     add_paragraph := fun doc text => Returned (doc ++ [text]);
     save := serialise |}.

(** A stand-in file format for sample runs: the paragraphs, which must
    hold no form feed, separated by form feeds. *)
Definition records_serialise (paragraphs : list str) : outcome bytes :=
  if forallb (free_of 12) paragraphs then Returned (join [12] paragraphs)
  else Raised (lit "form feed in a paragraph").

Definition records_reader : DocxReader bytes (list str) :=
  {| open_document := fun file => Returned (split_on 12 file);
     paragraph_texts := fun doc => doc |}.

(** The paragraph made of a line: empty for a whitespace-only line. *)
Definition paragraph_of_line (line : str) : str :=
  match strip line with
  | [] => []
  | _ :: _ => line
  end.

(** * Properties *)

(** ** Lists *)

Lemma dropwhile_app_stop (p : char -> bool) (a b : str) (c : char) :
  p c = false -> dropwhile p (a ++ c :: b) = dropwhile p a ++ c :: b.
Proof.
  intros Hc. induction a as [|x a IH]; simpl.
  - now rewrite Hc.
  - destruct (p x); [exact IH | reflexivity].
Qed.

Lemma dropwhile_suffix (p : char -> bool) (s : str) :
  exists a, s = a ++ dropwhile p s.
Proof.
  induction s as [|x s [a IH]]; simpl.
  - now exists [].
  - destruct (p x).
    + exists (x :: a). simpl. now f_equal.
    + now exists [].
Qed.

Lemma dropwhile_head (p : char -> bool) (s : str) :
  match dropwhile p s with
  | [] => True
  | c :: _ => p c = false
  end.
Proof.
  induction s as [|x s IH]; simpl; [exact I|].
  destruct (p x) eqn:E; [exact IH | exact E].
Qed.

Lemma dropwhile_idem (p : char -> bool) (s : str) :
  dropwhile p (dropwhile p s) = dropwhile p s.
Proof.
  induction s as [|x s IH]; simpl; [reflexivity|].
  destruct (p x) eqn:E; [exact IH | simpl; now rewrite E].
Qed.

(** ** strip *)

Lemma isspace_NL : isspace NL = true.
Proof. reflexivity. Qed.

Lemma isspace_SP : isspace SP = true.
Proof. reflexivity. Qed.

Lemma lstrip_suffix (s : str) : exists a, s = a ++ lstrip s.
Proof. apply dropwhile_suffix. Qed.

Lemma rstrip_prefix (s : str) : exists b, s = rstrip s ++ b.
Proof.
  unfold rstrip. destruct (dropwhile_suffix isspace (rev s)) as [a Ha].
  exists (rev a). rewrite <- rev_app_distr, <- Ha. now rewrite rev_involutive.
Qed.

Lemma strip_factor (s : str) : exists a b, s = a ++ strip s ++ b.
Proof.
  unfold strip. destruct (lstrip_suffix s) as [a Ha].
  destruct (rstrip_prefix (lstrip s)) as [b Hb].
  exists a, b. now rewrite <- Hb.
Qed.

Lemma rstrip_app_stop (a b : str) (c : char) :
  isspace c = false -> rstrip (a ++ c :: b) = a ++ c :: rstrip b.
Proof.
  intros Hc. unfold rstrip.
  rewrite rev_app_distr. simpl. rewrite <- app_assoc. simpl.
  rewrite (dropwhile_app_stop _ _ _ _ Hc).
  rewrite rev_app_distr. simpl. rewrite rev_involutive.
  now rewrite <- app_assoc.
Qed.

Lemma lstrip_app_stop (a b : str) (c : char) :
  isspace c = false -> lstrip (a ++ c :: b) = lstrip a ++ c :: b.
Proof. apply dropwhile_app_stop. Qed.

Lemma strip_idem (s : str) : strip (strip s) = strip s.
Proof.
  unfold strip at 2 3.
  pose proof (dropwhile_head isspace s) as Hh. fold (lstrip s) in Hh.
  destruct (lstrip s) as [|c t] eqn:E.
  - reflexivity.
  - pose proof (rstrip_app_stop [] t c Hh) as R. simpl in R. rewrite R.
    unfold strip, lstrip. simpl. rewrite Hh.
    pose proof (rstrip_app_stop [] (rstrip t) c Hh) as R'. simpl in R'.
    rewrite R'. f_equal.
    unfold rstrip. rewrite rev_involutive, dropwhile_idem. reflexivity.
Qed.

(** ** The matcher *)

Lemma greedy_le (p : char -> bool) (k : str -> option nat) :
  (forall s n, k s = Some n -> (n <= List.length s)%nat) ->
  forall s n, greedy p k s = Some n -> (n <= List.length s)%nat.
Proof.
  intros Hk s. induction s as [|c r IH]; intros n H; simpl in H.
  - now apply Hk.
  - destruct (p c).
    + destruct (greedy p k r) as [m|] eqn:E.
      * injection H as <-. simpl. apply le_n_S. now apply IH.
      * now apply Hk.
    + now apply Hk.
Qed.

Lemma match_here_le (pat : list item) :
  forall s n, match_here pat s = Some n -> (n <= List.length s)%nat.
Proof.
  induction pat as [|[p|p|p] pat IH]; intros s n H; simpl in H.
  - injection H as <-. apply Nat.le_0_l.
  - destruct s as [|c r]; [discriminate|].
    destruct (p c); [|discriminate].
    destruct (match_here pat r) as [m|] eqn:E; [|discriminate].
    injection H as <-. simpl. apply le_n_S. now apply IH.
  - now apply (greedy_le p _ IH).
  - destruct s as [|c r]; [discriminate|].
    destruct (p c); [|discriminate].
    destruct (greedy p (match_here pat) r) as [m|] eqn:E; [|discriminate].
    injection H as <-. simpl. apply le_n_S.
    now apply (greedy_le p _ IH).
Qed.

Lemma sub_scan_skip (pat : list item) (repl : str) :
  forall s k, (k <= List.length s)%nat ->
    sub_scan pat repl k s = sub_scan pat repl 0 (skipn k s).
Proof.
  induction s as [|c r IH]; intros k Hk.
  - destruct k; [reflexivity | simpl in Hk; lia].
  - destruct k as [|k]; [reflexivity|].
    simpl in Hk. simpl. apply IH. lia.
Qed.

(** ** The blank-line substitution [re.sub(r'\n\s*\n', '\n\n', _)] *)

Local Abbreviation collapse_blank := (re_sub re_blank_lines [NL; NL]).
Local Abbreviation collapse_spaces := (re_sub re_spaces [SP]).

Lemma blank_match_cons (c : char) (r : str) :
  match_here (items re_blank_lines) (c :: r)
  = if c =? NL then option_map S (blank_gap r) else None.
Proof.
  cbn [re_blank_lines items match_here]. rewrite (N.eqb_sym NL c).
  reflexivity.
Qed.

Lemma blank_gap_le (r : str) (n : nat) :
  blank_gap r = Some n -> (n <= List.length r)%nat.
Proof. apply greedy_le. apply match_here_le. Qed.

Lemma collapse_blank_nil : collapse_blank [] = [].
Proof. reflexivity. Qed.

Lemma collapse_blank_other (c : char) (r : str) :
  (c =? NL) = false -> collapse_blank (c :: r) = c :: collapse_blank r.
Proof.
  intros Hc. unfold re_sub. cbn [anchored re_blank_lines sub_scan].
  change (match_here _ (c :: r))
    with (match_here (items re_blank_lines) (c :: r)).
  rewrite blank_match_cons, Hc. reflexivity.
Qed.

Lemma collapse_blank_single (r : str) :
  blank_gap r = None -> collapse_blank (NL :: r) = NL :: collapse_blank r.
Proof.
  intros Hg. unfold re_sub. cbn [anchored re_blank_lines sub_scan].
  change (match_here _ (NL :: r))
    with (match_here (items re_blank_lines) (NL :: r)).
  rewrite blank_match_cons, N.eqb_refl, Hg. reflexivity.
Qed.

Lemma collapse_blank_match (r : str) (n : nat) :
  blank_gap r = Some n ->
  collapse_blank (NL :: r) = NL :: NL :: collapse_blank (skipn n r).
Proof.
  intros Hg. unfold re_sub. cbn [anchored re_blank_lines sub_scan].
  change (match_here _ (NL :: r))
    with (match_here (items re_blank_lines) (NL :: r)).
  rewrite blank_match_cons, N.eqb_refl, Hg. cbn [option_map app].
  rewrite sub_scan_skip by (now apply blank_gap_le). reflexivity.
Qed.

Lemma blank_gap_cons (c : char) (r : str) :
  blank_gap (c :: r)
  = if isspace c
    then match blank_gap r with
         | Some n => Some (S n)
         | None => if c =? NL then Some 1%nat else None
         end
    else None.
Proof.
  unfold blank_gap. cbn [greedy match_here]. rewrite (N.eqb_sym NL c).
  destruct (isspace c) eqn:Hs.
  - destruct (greedy isspace _ r); [reflexivity|].
    destruct (c =? NL); reflexivity.
  - destruct (N.eqb_spec c NL) as [->|_]; [discriminate | reflexivity].
Qed.

Lemma blank_gap_none (r : str) :
  blank_gap r = None <-> nl_free_gap r = true.
Proof.
  induction r as [|c r IH].
  - split; reflexivity.
  - rewrite blank_gap_cons. cbn [nl_free_gap].
    destruct (N.eqb_spec c NL) as [->|Hc].
    + rewrite isspace_NL. destruct (blank_gap r); split; discriminate.
    + destruct (isspace c).
      * destruct (blank_gap r) as [n|].
        -- split; [discriminate|]. intros H. apply IH in H. discriminate.
        -- split; intros _; [now apply IH | reflexivity].
      * split; reflexivity.
Qed.

Lemma blank_gap_some (r : str) (n : nat) :
  blank_gap r = Some n ->
  (1 <= n)%nat /\ nl_free_gap (skipn n r) = true.
Proof.
  revert n. induction r as [|c r IH]; intros n H.
  - discriminate.
  - rewrite blank_gap_cons in H. destruct (isspace c); [|discriminate].
    destruct (blank_gap r) as [m|] eqn:E.
    + injection H as <-. destruct (IH m eq_refl) as [_ Hm].
      split; [lia | exact Hm].
    + destruct (c =? NL); [|discriminate]. injection H as <-.
      split; [lia | now apply blank_gap_none].
Qed.

Lemma blank_gap_adjacent (r : str) :
  nl_free_gap r = true -> blank_gap (NL :: r) = Some 1%nat.
Proof.
  intros H. rewrite blank_gap_cons, isspace_NL.
  apply blank_gap_none in H. rewrite H. reflexivity.
Qed.

Lemma nl_free_gap_ok (s : str) : nl_free_gap s = true -> gap_ok s = true.
Proof.
  destruct s as [|c r]; [reflexivity|]. cbn [gap_ok nl_free_gap].
  destruct (c =? NL); [discriminate | trivial].
Qed.

Lemma nl_free_gap_collapse_blank (s : str) :
  nl_free_gap s = true -> nl_free_gap (collapse_blank s) = true.
Proof.
  induction s as [|c r IH]; [reflexivity|].
  cbn [nl_free_gap]. destruct (c =? NL) eqn:Hc; [discriminate|].
  intros H. rewrite (collapse_blank_other _ _ Hc). cbn [nl_free_gap].
  rewrite Hc. destruct (isspace c); [now apply IH | reflexivity].
Qed.

(** The substitution establishes its normal form. *)
Lemma collapse_blank_collapsed (s : str) :
  blank_collapsed (collapse_blank s) = true.
Proof.
  remember (List.length s) as n eqn:Hn.
  revert s Hn. induction n as [n IH] using lt_wf_ind. intros s Hn.
  destruct s as [|c r]; [reflexivity|].
  destruct (c =? NL) eqn:Hc.
  - apply N.eqb_eq in Hc. subst c.
    destruct (blank_gap r) as [m|] eqn:Hg.
    + rewrite (collapse_blank_match _ _ Hg).
      destruct (blank_gap_some _ _ Hg) as [Hm Hfree].
      pose proof (blank_gap_le _ _ Hg) as Hle.
      apply nl_free_gap_collapse_blank in Hfree.
      cbn [blank_collapsed gap_ok]. rewrite N.eqb_refl. cbn [negb orb].
      rewrite Hfree, (nl_free_gap_ok _ Hfree). cbn [andb].
      apply (IH (List.length (skipn m r))); [|reflexivity].
      rewrite length_skipn. subst n. simpl. lia.
    + rewrite (collapse_blank_single _ Hg).
      apply blank_gap_none in Hg. apply nl_free_gap_collapse_blank in Hg.
      cbn [blank_collapsed]. rewrite (nl_free_gap_ok _ Hg), orb_true_r.
      cbn [andb]. apply (IH (List.length r)); [|reflexivity].
      subst n. simpl. lia.
  - rewrite (collapse_blank_other _ _ Hc). cbn [blank_collapsed].
    rewrite Hc. cbn [negb orb andb].
    apply (IH (List.length r)); [|reflexivity]. subst n. simpl. lia.
Qed.

(** A text in normal form is left as it is. *)
Lemma collapse_blank_fixed (s : str) :
  blank_collapsed s = true -> collapse_blank s = s.
Proof.
  induction s as [|c r IH]; [reflexivity|].
  cbn [blank_collapsed]. intros H. apply andb_true_iff in H as [Hc Hr].
  destruct (c =? NL) eqn:E.
  - apply N.eqb_eq in E. subst c. cbn [negb orb] in Hc.
    destruct r as [|d r'].
    + now rewrite (collapse_blank_single []).
    + cbn [gap_ok] in Hc. destruct (d =? NL) eqn:Ed.
      * apply N.eqb_eq in Ed. subst d.
        rewrite (collapse_blank_match _ 1 (blank_gap_adjacent _ Hc)).
        cbn [skipn]. f_equal.
        pose proof (IH Hr) as IH'.
        rewrite (collapse_blank_single r') in IH'
          by (now apply blank_gap_none).
        now injection IH'.
      * rewrite (collapse_blank_single (d :: r'))
          by (now apply blank_gap_none).
        f_equal. now apply IH.
  - rewrite (collapse_blank_other _ _ E). f_equal. now apply IH.
Qed.

(** ** The space substitution [re.sub(r' +', ' ', _)] *)

Lemma space_run (r : str) :
  greedy (N.eqb SP) (match_here []) r
  = Some (List.length (takewhile (N.eqb SP) r)).
Proof.
  induction r as [|c r IH]; [reflexivity|].
  cbn [greedy takewhile]. destruct (SP =? c); [|reflexivity].
  rewrite IH. reflexivity.
Qed.

Lemma skipn_takewhile (p : char -> bool) (r : str) :
  skipn (List.length (takewhile p r)) r = dropwhile p r.
Proof.
  induction r as [|c r IH]; [reflexivity|].
  cbn [takewhile dropwhile]. destruct (p c); [exact IH | reflexivity].
Qed.

Lemma takewhile_length (p : char -> bool) (r : str) :
  (List.length (takewhile p r) <= List.length r)%nat.
Proof.
  induction r as [|c r IH]; [apply le_n|].
  cbn [takewhile]. destruct (p c); simpl; lia.
Qed.

Lemma collapse_spaces_other (c : char) (r : str) :
  (c =? SP) = false -> collapse_spaces (c :: r) = c :: collapse_spaces r.
Proof.
  intros Hc. unfold re_sub.
  cbn [anchored re_spaces items sub_scan match_here].
  rewrite (N.eqb_sym SP c), Hc. reflexivity.
Qed.

Lemma collapse_spaces_run (r : str) :
  collapse_spaces (SP :: r)
  = SP :: collapse_spaces (dropwhile (N.eqb SP) r).
Proof.
  unfold re_sub. cbn [anchored re_spaces items sub_scan match_here].
  rewrite N.eqb_refl, space_run. cbn [option_map app].
  rewrite sub_scan_skip by apply takewhile_length.
  now rewrite skipn_takewhile.
Qed.

Lemma collapse_spaces_squeeze (s : str) : collapse_spaces s = squeeze s.
Proof.
  induction s as [|c r IH]; [reflexivity|].
  cbn [squeeze]. destruct (N.eqb_spec c SP) as [->|Hc].
  - rewrite collapse_spaces_run. destruct r as [|d r'].
    + reflexivity.
    + cbn [startswith dropwhile andb]. rewrite andb_true_r.
      destruct (SP =? d) eqn:Ed.
      * apply N.eqb_eq in Ed. subst d.
        rewrite <- IH, collapse_spaces_run. reflexivity.
      * now rewrite IH.
  - cbn [andb]. rewrite collapse_spaces_other by (now apply N.eqb_neq).
    now rewrite IH.
Qed.

Lemma squeeze_head (s : str) :
  startswith [SP] (squeeze s) = startswith [SP] s.
Proof.
  induction s as [|c r IH]; [reflexivity|].
  cbn [squeeze]. destruct ((c =? SP) && startswith [SP] r) eqn:E.
  - apply andb_true_iff in E as [Ec Er]. apply N.eqb_eq in Ec. subst c.
    rewrite IH, Er. reflexivity.
  - reflexivity.
Qed.

Lemma squeeze_collapsed (s : str) : spaces_collapsed (squeeze s) = true.
Proof.
  induction s as [|c r IH]; [reflexivity|].
  cbn [squeeze]. destruct ((c =? SP) && startswith [SP] r) eqn:E.
  - exact IH.
  - cbn [spaces_collapsed]. now rewrite squeeze_head, E, IH.
Qed.

Lemma squeeze_fixed (s : str) : spaces_collapsed s = true -> squeeze s = s.
Proof.
  induction s as [|c r IH]; [reflexivity|].
  cbn [spaces_collapsed squeeze]. intros H.
  apply andb_true_iff in H as [Hc Hr]. apply negb_true_iff in Hc.
  rewrite Hc. f_equal. now apply IH.
Qed.

Lemma startswith_app_l (p a b : str) :
  startswith p a = true -> startswith p (a ++ b) = true.
Proof.
  revert a. induction p as [|x p IH]; intros a H; [reflexivity|].
  destruct a as [|c a]; [discriminate|]. cbn [startswith app] in *.
  apply andb_true_iff in H as [H1 H2]. now rewrite H1, IH.
Qed.

Lemma spaces_collapsed_app (a b : str) :
  spaces_collapsed (a ++ b) = true ->
  spaces_collapsed a = true /\ spaces_collapsed b = true.
Proof.
  induction a as [|c a IH]; intros H; [now split|].
  cbn [app spaces_collapsed] in *.
  apply andb_true_iff in H as [Hc Hr]. destruct (IH Hr) as [Ha Hb].
  split; [|exact Hb]. rewrite Ha, andb_true_r.
  apply negb_true_iff. apply negb_true_iff in Hc.
  destruct (c =? SP); [|reflexivity]. cbn [andb] in *.
  destruct (startswith [SP] a) eqn:E; [|reflexivity].
  now rewrite (startswith_app_l _ _ b E) in Hc.
Qed.

Lemma spaces_collapsed_pair (b : str) :
  spaces_collapsed (SP :: SP :: b) = false.
Proof. reflexivity. Qed.

(** ** The normal form of the blank-line substitution is stable *)

Lemma nl_free_gap_app_l (a b : str) :
  nl_free_gap (a ++ b) = true -> nl_free_gap a = true.
Proof.
  induction a as [|c a IH]; [reflexivity|]. cbn [app nl_free_gap].
  destruct (c =? NL); [trivial|]. destruct (isspace c); trivial.
Qed.

Lemma gap_ok_app_l (a b : str) : gap_ok (a ++ b) = true -> gap_ok a = true.
Proof.
  destruct a as [|c a]; [reflexivity|]. cbn [app gap_ok].
  destruct (c =? NL).
  - apply nl_free_gap_app_l.
  - apply (nl_free_gap_app_l (c :: a) b).
Qed.

Lemma blank_collapsed_app (a b : str) :
  blank_collapsed (a ++ b) = true ->
  blank_collapsed a = true /\ blank_collapsed b = true.
Proof.
  induction a as [|c a IH]; intros H; [now split|].
  cbn [app blank_collapsed] in *.
  apply andb_true_iff in H as [Hc Hr]. destruct (IH Hr) as [Ha Hb].
  split; [|exact Hb]. rewrite Ha, andb_true_r.
  destruct (c =? NL); [|reflexivity]. cbn [negb orb] in *.
  now apply gap_ok_app_l in Hc.
Qed.

Lemma blank_collapsed_triple (b : str) :
  blank_collapsed (NL :: NL :: NL :: b) = false.
Proof. reflexivity. Qed.

Lemma nl_free_gap_squeeze (s : str) :
  nl_free_gap (squeeze s) = nl_free_gap s.
Proof.
  induction s as [|c r IH]; [reflexivity|].
  cbn [squeeze]. destruct ((c =? SP) && startswith [SP] r) eqn:E.
  - apply andb_true_iff in E as [Ec _]. apply N.eqb_eq in Ec. subst c.
    rewrite IH. reflexivity.
  - cbn [nl_free_gap]. now rewrite IH.
Qed.

Lemma gap_ok_squeeze (s : str) : gap_ok (squeeze s) = gap_ok s.
Proof.
  destruct s as [|c r]; [reflexivity|].
  destruct (N.eqb_spec c NL) as [->|Hc].
  - cbn [squeeze gap_ok N.eqb NL SP Pos.eqb andb].
    apply nl_free_gap_squeeze.
  - apply N.eqb_neq in Hc.
    assert (H : gap_ok (c :: r) = nl_free_gap (c :: r))
      by (cbn [gap_ok]; now rewrite Hc).
    rewrite H, <- nl_free_gap_squeeze.
    cbn [squeeze]. destruct ((c =? SP) && startswith [SP] r) eqn:E.
    + apply andb_true_iff in E as [_ Er].
      destruct r as [|d r']; [discriminate|].
      cbn [startswith] in Er. rewrite andb_true_r in Er.
      apply N.eqb_eq in Er. subst d.
      pose proof (squeeze_head (SP :: r')) as Hh.
      destruct (squeeze (SP :: r')) as [|e t]; [discriminate Hh|].
      cbn [startswith] in Hh. rewrite N.eqb_refl, andb_true_r in Hh.
      apply N.eqb_eq in Hh. subst e. reflexivity.
    + cbn [gap_ok]. now rewrite Hc.
Qed.

Lemma blank_collapsed_squeeze (s : str) :
  blank_collapsed s = true -> blank_collapsed (squeeze s) = true.
Proof.
  induction s as [|c r IH]; [reflexivity|].
  cbn [blank_collapsed squeeze]. intros H.
  apply andb_true_iff in H as [Hc Hr].
  destruct ((c =? SP) && startswith [SP] r); [now apply IH|].
  cbn [blank_collapsed]. now rewrite gap_ok_squeeze, Hc, IH.
Qed.

(** ** clean_text: what its result looks like *)

Lemma clean_text_steps (text : str) :
  clean_text text = strip (squeeze (collapse_blank text)).
Proof. unfold clean_text. now rewrite collapse_spaces_squeeze. Qed.

Lemma clean_text_normal (text : str) :
  blank_collapsed (clean_text text) = true
  /\ spaces_collapsed (clean_text text) = true
  /\ strip (clean_text text) = clean_text text.
Proof.
  rewrite clean_text_steps.
  set (z := squeeze (collapse_blank text)).
  assert (Hb : blank_collapsed z = true)
    by (apply blank_collapsed_squeeze, collapse_blank_collapsed).
  assert (Hs : spaces_collapsed z = true) by apply squeeze_collapsed.
  destruct (strip_factor z) as (a & b & Hz).
  rewrite Hz in Hb, Hs.
  apply blank_collapsed_app in Hb as [_ Hb].
  apply blank_collapsed_app in Hb as [Hb _].
  apply spaces_collapsed_app in Hs as [_ Hs].
  apply spaces_collapsed_app in Hs as [Hs _].
  repeat split; [exact Hb | exact Hs | apply strip_idem].
Qed.

(** ** Text between two non-whitespace characters *)

Lemma blank_gap_app_stop (a r : str) (c : char) :
  isspace c = false -> blank_gap (a ++ c :: r) = blank_gap a.
Proof.
  intros Hc. induction a as [|x a IH].
  - cbn [app]. rewrite blank_gap_cons, Hc. reflexivity.
  - cbn [app]. rewrite !blank_gap_cons, IH. reflexivity.
Qed.

Lemma not_space_not_NL (c : char) : isspace c = false -> (c =? NL) = false.
Proof.
  intros H. destruct (N.eqb_spec c NL) as [->|]; [discriminate | reflexivity].
Qed.

Lemma not_space_not_SP (c : char) : isspace c = false -> (c =? SP) = false.
Proof.
  intros H. destruct (N.eqb_spec c SP) as [->|]; [discriminate | reflexivity].
Qed.

Lemma collapse_blank_app_stop (a r : str) (c : char) :
  isspace c = false ->
  collapse_blank (a ++ c :: r) = collapse_blank a ++ c :: collapse_blank r.
Proof.
  intros Hc. remember (List.length a) as n eqn:Hn.
  revert a Hn. induction n as [n IH] using lt_wf_ind. intros a Hn.
  destruct a as [|x a].
  - cbn [app]. now rewrite (collapse_blank_other _ _ (not_space_not_NL _ Hc)).
  - cbn [app]. destruct (x =? NL) eqn:Hx.
    + apply N.eqb_eq in Hx. subst x.
      destruct (blank_gap a) as [m|] eqn:Hg.
      * pose proof (blank_gap_le _ _ Hg) as Hle.
        rewrite (collapse_blank_match (a ++ c :: r) m)
          by (now rewrite blank_gap_app_stop).
        rewrite (collapse_blank_match a m Hg).
        rewrite skipn_app.
        replace (m - List.length a)%nat with 0%nat by lia. cbn [skipn].
        rewrite (IH (List.length (skipn m a))); [reflexivity | | reflexivity].
        rewrite length_skipn. subst n. simpl. lia.
      * rewrite (collapse_blank_single (a ++ c :: r))
          by (now rewrite blank_gap_app_stop).
        rewrite (collapse_blank_single a Hg).
        rewrite (IH (List.length a)); [reflexivity | | reflexivity].
        subst n. simpl. lia.
    + rewrite !(collapse_blank_other _ _ Hx).
      rewrite (IH (List.length a)); [reflexivity | | reflexivity].
      subst n. simpl. lia.
Qed.

Lemma startswith_SP_app_stop (a r : str) (c : char) :
  (c =? SP) = false -> startswith [SP] (a ++ c :: r) = startswith [SP] a.
Proof.
  intros Hc. destruct a as [|x a]; cbn [app startswith].
  - now rewrite (N.eqb_sym SP c), Hc.
  - reflexivity.
Qed.

Lemma squeeze_app_stop (a r : str) (c : char) :
  (c =? SP) = false -> squeeze (a ++ c :: r) = squeeze a ++ c :: squeeze r.
Proof.
  intros Hc. induction a as [|x a IH].
  - cbn [app squeeze]. now rewrite Hc.
  - cbn [app squeeze]. rewrite (startswith_SP_app_stop _ _ _ Hc), IH.
    destruct ((x =? SP) && startswith [SP] a); reflexivity.
Qed.

Lemma squeeze_keeps_other (s : str) :
  filter (fun c => negb (c =? SP)) (squeeze s)
  = filter (fun c => negb (c =? SP)) s.
Proof.
  induction s as [|c r IH]; [reflexivity|].
  cbn [squeeze]. destruct ((c =? SP) && startswith [SP] r) eqn:E.
  - apply andb_true_iff in E as [Ec _]. cbn [filter]. now rewrite Ec.
  - cbn [filter]. now rewrite IH.
Qed.

(** ** Substrings *)

Lemma startswith_self_app (p b : str) : startswith p (p ++ b) = true.
Proof.
  induction p as [|x p IH]; [reflexivity|].
  cbn [app startswith]. now rewrite N.eqb_refl, IH.
Qed.

Lemma contains_app_r (p a b : str) :
  contains p b = true -> contains p (a ++ b) = true.
Proof.
  intros H. induction a as [|x a IH]; [exact H|].
  cbn [app contains]. rewrite IH. apply orb_true_r.
Qed.

Lemma contains_app_l (p a b : str) :
  contains p a = true -> contains p (a ++ b) = true.
Proof.
  induction a as [|x a IH]; intros H.
  - destruct p as [|y p]; [destruct b; reflexivity | discriminate].
  - cbn [app contains] in *. apply orb_true_iff in H as [H|H].
    + pose proof (startswith_app_l _ _ b H) as H'. cbn [app] in H'.
      now rewrite H'.
    + rewrite (IH H). apply orb_true_r.
Qed.

Lemma contains_startswith (p s : str) :
  startswith p s = true -> contains p s = true.
Proof. intros H. destruct s; cbn [contains]; now rewrite H. Qed.

Lemma contains_middle (p a b : str) : contains p (a ++ p ++ b) = true.
Proof.
  apply contains_app_r, contains_startswith, startswith_self_app.
Qed.

(** ** The question scan *)

Section ExtractorProperties.

Variable unicode_lower : str -> str.
Variable unicode_decimal : char -> bool.

Local Abbreviation lower' := (lower unicode_lower).
Local Abbreviation mentions := (mentions_indicator unicode_lower).
Local Abbreviation step := (scan_line unicode_lower unicode_decimal).
Local Abbreviation scan := (scan_lines unicode_lower unicode_decimal).
Local Abbreviation collected :=
  (collected_questions unicode_lower unicode_decimal).
Local Abbreviation extract :=
  (extract_questions_from_analysis unicode_lower unicode_decimal).

Lemma scan_line_indicator (st : scan_state) (line : str) :
  mentions line = true -> step st line = (true, snd st).
Proof.
  intros H. destruct st as [b qs]. unfold scan_line.
  unfold mentions_indicator in H. cbv zeta. now rewrite H.
Qed.

Lemma scan_line_outside (qs : list str) (line : str) :
  mentions line = false -> step (false, qs) line = (false, qs).
Proof.
  intros H. unfold scan_line.
  unfold mentions_indicator in H. cbv zeta. now rewrite H.
Qed.

Lemma scan_stays_outside (lines : list str) (qs : list str) :
  forallb (fun line => negb (mentions line)) lines = true ->
  fold_left step lines (false, qs) = (false, qs).
Proof.
  induction lines as [|l ls IH]; intros H; [reflexivity|].
  cbn [forallb] in H. apply andb_true_iff in H as [Hl Hls].
  apply negb_true_iff in Hl. cbn [fold_left].
  rewrite (scan_line_outside _ _ Hl). now apply IH.
Qed.

(** Trimming cannot bring a phrase into a line. *)
Lemma contains_strip (p s : str) :
  contains p (strip s) = true -> contains p s = true.
Proof.
  intros H. destruct (strip_factor s) as (a & b & Hs).
  rewrite Hs. now apply contains_app_r, contains_app_l.
Qed.

Lemma existsb_contains_strip (phrases : list str) (s : str) :
  existsb (fun p => contains p s) phrases = false ->
  existsb (fun p => contains p (strip s)) phrases = false.
Proof.
  induction phrases as [|p ps IH]; [reflexivity|].
  cbn [existsb]. intros H. apply orb_false_iff in H as [Hp Hps].
  rewrite (IH Hps), orb_false_r.
  destruct (contains p (strip s)) eqn:E; [|reflexivity].
  apply contains_strip in E. congruence.
Qed.

Lemma mentions_lower (line : str) :
  existsb (fun indicator => contains indicator (lower' line))
          question_indicators = false ->
  mentions line = false.
Proof. apply existsb_contains_strip. Qed.

Lemma extract_length (text : str) :
  (1 <= List.length (extract text) <= 6)%nat.
Proof.
  unfold extract_questions_from_analysis.
  destruct (collected text) as [|q qs].
  - cbv zeta. vm_compute. lia.
  - cbv zeta. rewrite length_firstn. simpl List.length. lia.
Qed.

End ExtractorProperties.

(** ** The emitters *)

Lemma create_docx_save_raises {D : Type} (docx : DocxLib D)
  (resume_text : str) (doc0 doc : D) (e : exn) :
  Document docx = Returned doc0 ->
  for_each (fun doc line =>
              match strip line with
              | [] => add_paragraph docx doc []
              | _ :: _ => add_paragraph docx doc line
              end)
           (split_on NL resume_text) doc0 = Returned doc ->
  save docx doc = Raised e ->
  create_docx_from_text docx resume_text = Raised e.
Proof.
  intros H0 H1 H2. unfold create_docx_from_text.
  rewrite H0. cbn [bind]. rewrite H1. cbn [bind]. now rewrite H2.
Qed.


Lemma create_pdf_failure (isupper : str -> bool)
  (textwrap_fill : str -> nat -> str) {P : Type} (fpdf : FpdfLib P)
  (resume_text : str) (e : exn) :
  create_pdf_body isupper textwrap_fill fpdf resume_text = Raised e ->
  snd (create_pdf_from_text isupper textwrap_fill fpdf resume_text)
  = Returned [].
Proof. intros H. unfold create_pdf_from_text. now rewrite H. Qed.

(** ** Only whitespace is removed *)

Definition visible (c : char) : bool := negb (isspace c).

Lemma blank_gap_spaces (r : str) (n : nat) :
  blank_gap r = Some n -> forallb isspace (firstn n r) = true.
Proof.
  revert n. induction r as [|c r IH]; intros n H; [discriminate|].
  rewrite blank_gap_cons in H. destruct (isspace c) eqn:Hc; [|discriminate].
  destruct (blank_gap r) as [m|] eqn:E.
  - injection H as <-. cbn [firstn forallb]. now rewrite Hc, (IH m).
  - destruct (c =? NL); [|discriminate]. injection H as <-.
    cbn [firstn forallb]. now rewrite Hc.
Qed.

Lemma filter_visible_spaces (s : str) :
  forallb isspace s = true -> filter visible s = [].
Proof.
  induction s as [|c r IH]; [reflexivity|]. cbn [forallb filter].
  intros H. apply andb_true_iff in H as [Hc Hr].
  replace (visible c) with false by (unfold visible; now rewrite Hc).
  now apply IH.
Qed.

Lemma collapse_blank_visible (s : str) :
  filter visible (collapse_blank s) = filter visible s.
Proof.
  remember (List.length s) as n eqn:Hn.
  revert s Hn. induction n as [n IH] using lt_wf_ind. intros s Hn.
  destruct s as [|c r]; [reflexivity|].
  destruct (c =? NL) eqn:Hc.
  - apply N.eqb_eq in Hc. subst c.
    destruct (blank_gap r) as [m|] eqn:Hg.
    + rewrite (collapse_blank_match _ _ Hg).
      pose proof (blank_gap_le _ _ Hg) as Hle.
      change (filter visible (NL :: NL :: ?t)) with (filter visible t).
      change (filter visible (NL :: r)) with (filter visible r).
      rewrite (IH (List.length (skipn m r))); [| |reflexivity].
      * rewrite <- (firstn_skipn m r) at 2. rewrite filter_app.
        now rewrite (filter_visible_spaces _ (blank_gap_spaces _ _ Hg)).
      * rewrite length_skipn. subst n. simpl. lia.
    + rewrite (collapse_blank_single _ Hg).
      change (filter visible (NL :: ?t)) with (filter visible t).
      apply (IH (List.length r)); [|reflexivity]. subst n. simpl. lia.
  - rewrite (collapse_blank_other _ _ Hc). cbn [filter].
    rewrite (IH (List.length r)); [reflexivity| |reflexivity].
    subst n. simpl. lia.
Qed.

Lemma squeeze_visible (s : str) : filter visible (squeeze s) = filter visible s.
Proof.
  induction s as [|c r IH]; [reflexivity|].
  cbn [squeeze]. destruct ((c =? SP) && startswith [SP] r) eqn:E.
  - apply andb_true_iff in E as [Ec _]. apply N.eqb_eq in Ec. subst c.
    now rewrite IH.
  - cbn [filter]. now rewrite IH.
Qed.

Lemma dropwhile_visible (s : str) :
  filter visible (dropwhile isspace s) = filter visible s.
Proof.
  induction s as [|c r IH]; [reflexivity|].
  cbn [dropwhile]. destruct (isspace c) eqn:E; [|reflexivity].
  cbn [filter]. replace (visible c) with false by (unfold visible; now rewrite E).
  exact IH.
Qed.

Lemma filter_rev (p : char -> bool) (s : str) :
  filter p (rev s) = rev (filter p s).
Proof.
  induction s as [|c r IH]; [reflexivity|].
  cbn [rev filter]. rewrite filter_app, IH. cbn [filter].
  destruct (p c); [reflexivity | apply app_nil_r].
Qed.

Lemma strip_visible (s : str) : filter visible (strip s) = filter visible s.
Proof.
  unfold strip, rstrip, lstrip.
  rewrite filter_rev, dropwhile_visible, filter_rev, rev_involutive.
  apply dropwhile_visible.
Qed.

(** ** clean_text: size and emptiness *)

Lemma filter_visible_nil (s : str) :
  filter visible s = [] -> forallb isspace s = true.
Proof.
  induction s as [|c r IH]; [reflexivity|]. cbn [filter forallb].
  unfold visible at 1. destruct (isspace c); [exact IH | discriminate].
Qed.

Lemma dropwhile_all (p : char -> bool) (s : str) :
  forallb p s = true -> dropwhile p s = [].
Proof.
  induction s as [|c r IH]; [reflexivity|]. cbn [forallb dropwhile].
  intros H. apply andb_true_iff in H as [Hc Hr]. rewrite Hc. now apply IH.
Qed.

Lemma collapse_blank_length (s : str) :
  (List.length (collapse_blank s) <= List.length s)%nat.
Proof.
  remember (List.length s) as n eqn:Hn.
  revert s Hn. induction n as [n IH] using lt_wf_ind. intros s Hn.
  destruct s as [|c r]; [subst n; apply le_n|].
  destruct (c =? NL) eqn:Hc.
  - apply N.eqb_eq in Hc. subst c.
    destruct (blank_gap r) as [m|] eqn:Hg.
    + rewrite (collapse_blank_match _ _ Hg).
      pose proof (blank_gap_le _ _ Hg) as Hle.
      destruct (blank_gap_some _ _ Hg) as [Hm _].
      assert (Hs : (List.length (skipn m r) < n)%nat)
        by (rewrite length_skipn; subst n; simpl; lia).
      pose proof (IH _ Hs (skipn m r) eq_refl) as IH'.
      rewrite length_skipn in IH'. subst n. simpl in *. lia.
    + rewrite (collapse_blank_single _ Hg).
      assert (Hs : (List.length r < n)%nat) by (subst n; simpl; lia).
      pose proof (IH _ Hs r eq_refl) as IH'. subst n. simpl. lia.
  - rewrite (collapse_blank_other _ _ Hc).
    assert (Hs : (List.length r < n)%nat) by (subst n; simpl; lia).
    pose proof (IH _ Hs r eq_refl) as IH'. subst n. simpl. lia.
Qed.

Lemma squeeze_length (s : str) :
  (List.length (squeeze s) <= List.length s)%nat.
Proof.
  induction s as [|c r IH]; [apply le_n|]. cbn [squeeze].
  destruct ((c =? SP) && startswith [SP] r); simpl; lia.
Qed.

Lemma strip_length (s : str) :
  (List.length (strip s) <= List.length s)%nat.
Proof.
  destruct (strip_factor s) as (a & b & H). rewrite H at 2.
  rewrite !length_app. lia.
Qed.

(** ** The bullet substitution [re.sub(r'^[-•\d\.\s]+', '', _)] *)

Lemma greedy_run (p : char -> bool) (r : str) :
  greedy p (match_here []) r = Some (List.length (takewhile p r)).
Proof.
  induction r as [|c r IH]; [reflexivity|].
  cbn [greedy takewhile]. destruct (p c); [|reflexivity].
  rewrite IH. reflexivity.
Qed.

Lemma re_sub_anchored_plus (p : char -> bool) (s : str) :
  re_sub {| anchored := true; items := [Plus p] |} [] s = dropwhile p s.
Proof.
  unfold re_sub. cbn [anchored items match_here].
  destruct s as [|c r]; [reflexivity|]. cbn [dropwhile].
  destruct (p c); [|reflexivity].
  rewrite greedy_run. cbn [option_map app skipn]. apply skipn_takewhile.
Qed.

Section QuestionShape.

Variable unicode_lower : str -> str.
Variable unicode_decimal : char -> bool.

Local Abbreviation in_class := (bullet_class unicode_decimal).
Local Abbreviation step := (scan_line unicode_lower unicode_decimal).

Lemma bullet_class_space (c : char) : in_class c = false -> isspace c = false.
Proof.
  unfold bullet_class. intros H.
  destruct (isspace c); [|reflexivity]. now rewrite orb_true_r in H.
Qed.

(** The question taken from a line: the line without its leading bullet
    characters and without trailing whitespace. *)
Lemma question_of_line (line : str) :
  strip (re_sub (re_bullet unicode_decimal) [] line)
  = rstrip (dropwhile in_class line).
Proof.
  unfold re_bullet. rewrite re_sub_anchored_plus. unfold strip. f_equal.
  pose proof (dropwhile_head in_class line) as Hh.
  destruct (dropwhile in_class line) as [|c t]; [reflexivity|].
  unfold lstrip. cbn [dropwhile]. now rewrite (bullet_class_space _ Hh).
Qed.

(** What a line can add to the questions. *)
Lemma scan_line_questions (st : scan_state) (line : str) :
  snd (step st line) = snd st
  \/ snd (step st line) = snd st ++ [rstrip (dropwhile in_class line)]
     /\ (10 < List.length (rstrip (dropwhile in_class line)))%nat.
Proof.
  destruct st as [b qs]. unfold scan_line. cbv zeta.
  destruct (existsb _ question_indicators); [now left|].
  match goal with
  | |- context [if ?c && truthy (strip line) then _ else _] =>
      destruct (c && truthy (strip line)); [|now left]
  end.
  rewrite question_of_line.
  destruct (truthy _ && (10 <? _)%nat) eqn:E; [|now left].
  right. apply andb_true_iff in E as [_ E]. apply Nat.ltb_lt in E.
  cbn [snd]. now split.
Qed.

Lemma scan_questions_invariant (Q : str -> Prop) (lines : list str) :
  (forall line, In line lines ->
     (10 < List.length (rstrip (dropwhile in_class line)))%nat ->
     Q (rstrip (dropwhile in_class line))) ->
  forall st, Forall Q (snd st) -> Forall Q (snd (fold_left step lines st)).
Proof.
  induction lines as [|l ls IH]; intros HQ st Hst; [exact Hst|].
  cbn [fold_left]. apply IH.
  - intros line Hl. apply HQ. now right.
  - destruct (scan_line_questions st l) as [E|[E Hlen]]; rewrite E.
    + exact Hst.
    + apply Forall_app. split; [exact Hst|].
      constructor; [|constructor]. apply HQ; [now left | exact Hlen].
Qed.

Lemma rstrip_idem (s : str) : rstrip (rstrip s) = rstrip s.
Proof. unfold rstrip. now rewrite rev_involutive, dropwhile_idem. Qed.

Lemma question_shape (line : str) :
  let q := rstrip (dropwhile in_class line) in
  strip q = q
  /\ (q = [] \/ exists c t, q = c :: t /\ in_class c = false).
Proof.
  cbv zeta. pose proof (dropwhile_head in_class line) as Hh.
  destruct (dropwhile in_class line) as [|c t].
  - split; [reflexivity | now left].
  - pose proof (bullet_class_space _ Hh) as Hs.
    pose proof (rstrip_app_stop [] t c Hs) as R. cbn [app] in R. rewrite R.
    split.
    + unfold strip, lstrip. cbn [dropwhile]. rewrite Hs.
      pose proof (rstrip_app_stop [] (rstrip t) c Hs) as R'.
      cbn [app] in R'. now rewrite R', rstrip_idem.
    + right. now exists c, (rstrip t).
Qed.

Lemma question_verbatim (line : str) :
  exists a b, line = a ++ rstrip (dropwhile in_class line) ++ b.
Proof.
  destruct (dropwhile_suffix in_class line) as [a Ha].
  destruct (rstrip_prefix (dropwhile in_class line)) as [b Hb].
  exists a, b. now rewrite <- Hb.
Qed.

End QuestionShape.

Lemma Forall_firstn {A : Type} (P : A -> Prop) (n : nat) (l : list A) :
  Forall P l -> Forall P (firstn n l).
Proof.
  intros H. rewrite <- (firstn_skipn n l) in H.
  now apply Forall_app in H as [H _].
Qed.

(** ** Lines: split and join *)

Lemma split_on_cons (sep : char) (s : str) :
  exists f fs, split_on sep s = f :: fs.
Proof.
  induction s as [|c r (f & fs & IH)]; [now exists [], []|].
  cbn [split_on]. destruct (c =? sep); [now eexists; eexists|].
  rewrite IH. now eexists; eexists.
Qed.

Lemma split_on_app (sep : char) (a b : str) :
  split_on sep (a ++ sep :: b) = split_on sep a ++ split_on sep b.
Proof.
  induction a as [|c a IH].
  - cbn [app split_on]. now rewrite N.eqb_refl.
  - cbn [app split_on]. destruct (c =? sep).
    + now rewrite IH.
    + rewrite IH. destruct (split_on_cons sep a) as (f & fs & E).
      now rewrite E.
Qed.

Lemma split_on_free (sep : char) (s : str) :
  free_of sep s = true -> split_on sep s = [s].
Proof.
  induction s as [|c r IH]; [reflexivity|]. cbn [free_of forallb split_on].
  intros H. apply andb_true_iff in H as [Hc Hr].
  apply negb_true_iff in Hc. rewrite Hc. fold (free_of sep r) in Hr.
  now rewrite (IH Hr).
Qed.

Lemma split_on_join (sep : char) (l : str) (ls : list str) :
  forallb (free_of sep) (l :: ls) = true ->
  split_on sep (join [sep] (l :: ls)) = l :: ls.
Proof.
  revert l. induction ls as [|l' ls IH]; intros l H.
  - cbn [forallb] in H. rewrite andb_true_r in H.
    now apply split_on_free.
  - cbn [forallb] in H. apply andb_true_iff in H as [Hl Hls].
    change (join [sep] (l :: l' :: ls))
      with (l ++ sep :: join [sep] (l' :: ls)).
    rewrite split_on_app, (split_on_free _ _ Hl), (IH l' Hls). reflexivity.
Qed.

(** ** A section of marked items *)

Lemma truthy_app_cons (a b : str) (c : char) : truthy (a ++ c :: b) = true.
Proof. destruct a; reflexivity. Qed.

Lemma rstrip_stop_last (s : str) (c : char) :
  isspace c = false -> rstrip (s ++ [c]) = s ++ [c].
Proof. intros H. now rewrite (rstrip_app_stop s [] c H). Qed.

Section MarkedItems.

Variable unicode_lower : str -> str.
Variable unicode_decimal : char -> bool.

Local Abbreviation in_class := (bullet_class unicode_decimal).
Local Abbreviation step := (scan_line unicode_lower unicode_decimal).

Lemma starts_as_continuation_app (m q : str) :
  starts_as_continuation m = true -> starts_as_continuation (m ++ q) = true.
Proof.
  unfold starts_as_continuation.
  induction continuation_prefixes as [|p ps IH]; [discriminate|].
  cbn [existsb]. intros H. apply orb_true_iff in H as [H|H].
  - now rewrite (startswith_app_l _ _ q H).
  - rewrite (IH H). apply orb_true_r.
Qed.

Lemma scan_line_item (acc : list str) (item : str * str) :
  item_ok unicode_lower unicode_decimal item = true ->
  step (true, acc) (item_line item) = (true, acc ++ [snd item]).
Proof.
  destruct item as [m q]. unfold item_ok, item_line. cbn [fst snd].
  intros H. repeat (apply andb_true_iff in H as [H ?]).
  destruct q as [|c t]; [discriminate|].
  match goal with Hc : negb (in_class c) = true |- _ =>
    apply negb_true_iff in Hc; pose proof (bullet_class_space _ _ Hc) as Hs
  end.
  match goal with Hm : negb (mentions_indicator _ _) = true |- _ =>
    apply negb_true_iff in Hm; unfold mentions_indicator in Hm
  end.
  assert (Hq : rstrip (c :: t) = c :: t).
  { destruct (rev (c :: t)) as [|d u] eqn:E; [discriminate|].
    match goal with Hd : negb (isspace d) = true |- _ =>
      apply negb_true_iff in Hd
    end.
    assert (E' : c :: t = rev u ++ [d])
      by (rewrite <- (rev_involutive (c :: t)), E; reflexivity).
    rewrite E'. now apply rstrip_stop_last. }
  assert (Hstrip : truthy (strip (m ++ c :: t)) = true).
  { unfold strip. rewrite (lstrip_app_stop _ _ _ Hs).
    rewrite (rstrip_app_stop _ _ _ Hs). apply truthy_app_cons. }
  unfold scan_line. cbv zeta.
  match goal with Hm : existsb _ question_indicators = false |- _ =>
    rewrite Hm
  end.
  rewrite Hstrip, (starts_as_continuation_app m (c :: t)) by assumption.
  cbn [andb negb]. rewrite question_of_line.
  match goal with Hc : in_class c = false |- _ =>
    rewrite (dropwhile_app_stop _ _ _ _ Hc)
  end.
  rewrite dropwhile_all by assumption. cbn [app]. rewrite Hq.
  cbn [truthy andb].
  match goal with Hl : (10 <? _)%nat = true |- _ => rewrite Hl end.
  reflexivity.
Qed.

Lemma scan_items (items : list (str * str)) (acc : list str) :
  forallb (item_ok unicode_lower unicode_decimal) items = true ->
  fold_left step (List.map item_line items) (true, acc)
  = (true, acc ++ List.map snd items).
Proof.
  revert acc. induction items as [|it items IH]; intros acc H.
  - cbn. now rewrite app_nil_r.
  - cbn [forallb] in H. apply andb_true_iff in H as [Hi Hr].
    cbn [List.map fold_left]. rewrite (scan_line_item _ _ Hi), (IH _ Hr).
    now rewrite <- app_assoc.
Qed.

Lemma item_line_free (item : str * str) :
  item_ok unicode_lower unicode_decimal item = true -> free_of NL (item_line item) = true.
Proof.
  destruct item as [m q]. unfold item_ok, item_line. cbn [fst snd].
  intros H. repeat (apply andb_true_iff in H as [H ?]). assumption.
Qed.

End MarkedItems.

(** ** The rewrite prompt *)

Lemma contains_labelled (a label v b : str) :
  contains (label ++ v) ((a ++ label) ++ v ++ b) = true.
Proof.
  rewrite <- app_assoc, (app_assoc label v b). apply contains_middle.
Qed.

Lemma contains_join (sep e : str) (parts : list str) :
  In e parts -> contains e (join sep parts) = true.
Proof.
  induction parts as [|p ps IH]; intros H; [destruct H|].
  cbn [join]. destruct H as [->|H].
  - destruct ps; [|apply contains_app_l];
      apply contains_startswith; rewrite <- (app_nil_r e) at 2;
      apply startswith_self_app.
  - destruct ps as [|p' ps']; [destruct H|].
    now apply contains_app_r, contains_app_r, IH.
Qed.

Lemma build_rewrite_prompt_returned (resume_text extra_info : str)
  (d : dict) (f t l i : str) :
  dict_get d (lit "format") = Some f ->
  dict_get d (lit "tone") = Some t ->
  dict_get d (lit "length") = Some l ->
  dict_get d (lit "industry") = Some i ->
  build_rewrite_prompt resume_text extra_info d
  = Returned (rewrite_prompt_of f t l i resume_text extra_info).
Proof.
  intros Hf Ht Hl Hi. unfold build_rewrite_prompt, getitem.
  rewrite Hf, Ht, Hl, Hi. reflexivity.
Qed.

Lemma rewrite_prompt_of_contains (f t l i resume_text extra_info : str) :
  let p := rewrite_prompt_of f t l i resume_text extra_info in
  contains resume_text p = true
  /\ contains extra_info p = true
  /\ contains (lit "- Format: " ++ f) p = true
  /\ contains (lit "- Tone: " ++ t) p = true
  /\ contains (lit "- Length: " ++ l) p = true
  /\ contains (lit "- Industry Focus: " ++ i) p = true.
Proof.
  cbv zeta. unfold rewrite_prompt_of. rewrite <- !app_assoc.
  repeat split.
  - do 11 apply contains_app_r.
    apply contains_startswith, startswith_self_app.
  - do 13 apply contains_app_r.
    apply contains_startswith, startswith_self_app.
  - apply contains_app_r.
    change style_guide_format
      with (lit "
STYLE PREFERENCES:
" ++ lit "- Format: ").
    apply contains_labelled.
  - do 3 apply contains_app_r.
    change style_guide_tone with ([NL] ++ lit "- Tone: ").
    apply contains_labelled.
  - do 5 apply contains_app_r.
    change style_guide_length with ([NL] ++ lit "- Length: ").
    apply contains_labelled.
  - do 7 apply contains_app_r.
    change style_guide_industry with ([NL] ++ lit "- Industry Focus: ").
    apply contains_labelled.
Qed.

(** ** The answers given in the form *)

Lemma process_answers_In (answers : nat -> option str) (e : str)
  (questions : list str) :
  forall i acc,
    In e (process_answers i questions answers acc)
    <-> In e acc
        \/ exists j question,
             nth_error questions j = Some question
             /\ truthy (strip (answers_get answers (i + j))) = true
             /\ e = answer_entry question
                      (strip (answers_get answers (i + j))).
Proof.
  induction questions as [|q qs IH]; intros i acc.
  - cbn [process_answers]. split; [now left|].
    intros [H|(j & q & H & _)]; [exact H|]. now destruct j.
  - cbn [process_answers]. rewrite IH. split.
    + intros [H|(j & q' & Hn & Ht & He)].
      * destruct (truthy (strip (answers_get answers i))) eqn:E.
        -- apply in_app_or in H as [H|[H|[]]]; [now left|].
           right. exists 0%nat, q. rewrite Nat.add_0_r. now repeat split.
        -- now left.
      * right. exists (S j), q'. rewrite <- Nat.add_succ_comm.
        now repeat split.
    + intros [H|(j & q' & Hn & Ht & He)].
      * left. destruct (truthy _); [apply in_or_app|]; auto.
      * destruct j as [|j].
        -- rewrite Nat.add_0_r in *. cbn in Hn. injection Hn as <-.
           left. rewrite Ht. apply in_or_app. right. left. now rewrite He.
        -- right. exists j, q'. rewrite <- Nat.add_succ_comm in *.
           now repeat split.
Qed.

Lemma rewrite_prompt_of_info (f t l i resume_text extra_info e : str) :
  contains e extra_info = true ->
  contains e (rewrite_prompt_of f t l i resume_text extra_info) = true.
Proof.
  intros H. unfold rewrite_prompt_of. rewrite <- !app_assoc.
  do 13 apply contains_app_r. now apply contains_app_l.
Qed.

(** ** Reading the uploaded file *)

Lemma read_pages {F D : Type} (fitz : FitzLib F D) (doc : D)
  (texts : list str) :
  forall first pages,
    (forall i t, nth_error texts i = Some t ->
                 get_text fitz doc (first + i) = Returned t) ->
    for_each (fun pages i =>
                page <- get_text fitz doc i ;; Returned (pages ++ [page]))
             (seq first (List.length texts)) pages
    = Returned (pages ++ texts).
Proof.
  induction texts as [|t ts IH]; intros first pages H.
  - cbn. now rewrite app_nil_r.
  - cbn [List.length seq for_each].
    pose proof (H 0%nat t eq_refl) as H0. rewrite Nat.add_0_r in H0.
    rewrite H0. cbn [bind]. rewrite IH.
    + now rewrite <- app_assoc.
    + intros i u Hi. rewrite Nat.add_succ_comm. now apply H.
Qed.

(** ** Writing and reading paragraphs *)

Lemma add_paragraphs (lines : list str) (doc : list str)
  (serialise : list str -> outcome bytes) :
  for_each (fun doc line =>
              match strip line with
              | [] => add_paragraph (docx_paragraphs serialise) doc []
              | _ :: _ => add_paragraph (docx_paragraphs serialise) doc line
              end) lines doc
  = Returned (doc ++ List.map paragraph_of_line lines).
Proof.
  revert doc. induction lines as [|l ls IH]; intros doc.
  - cbn. now rewrite app_nil_r.
  - cbn [for_each List.map]. unfold paragraph_of_line at 1.
    destruct (strip l); cbn [docx_paragraphs add_paragraph bind];
      rewrite IH, <- app_assoc; reflexivity.
Qed.

Lemma split_on_length (sep : char) (s : str) :
  List.length (split_on sep s) = S (count_occ N.eq_dec s sep).
Proof.
  induction s as [|c r IH]; [reflexivity|].
  cbn [split_on count_occ]. destruct (N.eqb_spec c sep) as [->|Hc].
  - destruct (N.eq_dec sep sep); [|contradiction]. cbn. now rewrite IH.
  - destruct (N.eq_dec c sep); [contradiction|].
    destruct (split_on sep r) as [|f fs]; [discriminate|]. exact IH.
Qed.

Lemma join_split_on (sep : char) (s : str) :
  join [sep] (split_on sep s) = s.
Proof.
  induction s as [|c r IH]; [reflexivity|].
  cbn [split_on]. destruct (N.eqb_spec c sep) as [->|Hc].
  - destruct (split_on_cons sep r) as (f & fs & E). rewrite E in *.
    change (join [sep] ([] :: f :: fs)) with (sep :: join [sep] (f :: fs)).
    now rewrite IH.
  - destruct (split_on_cons sep r) as (f & fs & E). rewrite E in *.
    destruct fs as [|g gs].
    + cbn [join] in *. now rewrite IH.
    + change (join [sep] ((c :: f) :: g :: gs))
        with (c :: join [sep] (f :: g :: gs)).
      now rewrite IH.
Qed.

(** ** Where clean_text removes whitespace of other kinds *)

Lemma free_of_nl_gap (s : str) : free_of NL s = true -> nl_free_gap s = true.
Proof.
  induction s as [|c r IH]; [reflexivity|]. cbn [free_of forallb nl_free_gap].
  intros H. apply andb_true_iff in H as [Hc Hr]. apply negb_true_iff in Hc.
  rewrite Hc. destruct (isspace c); [now apply IH | reflexivity].
Qed.

Lemma collapse_blank_free_prefix (x y : str) :
  free_of NL x = true -> collapse_blank (x ++ y) = x ++ collapse_blank y.
Proof.
  induction x as [|c x IH]; [reflexivity|]. cbn [free_of forallb app].
  intros H. apply andb_true_iff in H as [Hc Hx]. apply negb_true_iff in Hc.
  now rewrite (collapse_blank_other _ _ Hc), (IH Hx).
Qed.

Lemma collapse_blank_free (x : str) :
  free_of NL x = true -> collapse_blank x = x.
Proof.
  intros H. rewrite <- (app_nil_r x) at 1.
  rewrite (collapse_blank_free_prefix _ _ H). apply app_nil_r.
Qed.

Lemma blank_gap_app_free (x y : str) :
  free_of NL y = true -> blank_gap (x ++ y) = blank_gap x.
Proof.
  intros H. induction x as [|c x IH].
  - cbn [app]. now apply blank_gap_none, free_of_nl_gap.
  - cbn [app]. now rewrite !blank_gap_cons, IH.
Qed.

Lemma collapse_blank_app_free (x y : str) :
  free_of NL y = true -> collapse_blank (x ++ y) = collapse_blank x ++ y.
Proof.
  intros Hy. remember (List.length x) as n eqn:Hn.
  revert x Hn. induction n as [n IH] using lt_wf_ind. intros x Hn.
  destruct x as [|c x].
  - now apply collapse_blank_free.
  - cbn [app]. destruct (c =? NL) eqn:Hc.
    + apply N.eqb_eq in Hc. subst c.
      destruct (blank_gap x) as [m|] eqn:Hg.
      * pose proof (blank_gap_le _ _ Hg) as Hle.
        rewrite (collapse_blank_match (x ++ y) m)
          by (now rewrite blank_gap_app_free).
        rewrite (collapse_blank_match x m Hg), skipn_app.
        replace (m - List.length x)%nat with 0%nat by lia. cbn [skipn].
        rewrite (IH (List.length (skipn m x))); [reflexivity | | reflexivity].
        rewrite length_skipn. subst n. simpl. lia.
      * rewrite (collapse_blank_single (x ++ y))
          by (now rewrite blank_gap_app_free).
        rewrite (collapse_blank_single x Hg).
        rewrite (IH (List.length x)); [reflexivity | | reflexivity].
        subst n. simpl. lia.
    + rewrite !(collapse_blank_other _ _ Hc).
      rewrite (IH (List.length x)); [reflexivity | | reflexivity].
      subst n. simpl. lia.
Qed.

(** A character with a newline-free stretch on one side is not reached by
    the blank-line substitution. *)
Lemma collapse_blank_around (t : char) (w1 w2 : str) :
  (t =? NL) = false ->
  free_of NL w1 || free_of NL w2 = true ->
  collapse_blank (w1 ++ t :: w2) = collapse_blank w1 ++ t :: collapse_blank w2.
Proof.
  intros Ht H. apply orb_true_iff in H as [H|H].
  - rewrite (collapse_blank_free_prefix _ _ H), (collapse_blank_free _ H).
    now rewrite (collapse_blank_other _ _ Ht).
  - assert (H' : free_of NL (t :: w2) = true)
      by (cbn [free_of forallb]; rewrite Ht; exact H).
    now rewrite (collapse_blank_app_free _ _ H'), (collapse_blank_free _ H).
Qed.

(** The run between two newlines: the match that reaches its first newline
    ends after its last one, whatever whitespace lies between. *)
Lemma blank_gap_over_run (r b : str) :
  forallb isspace r = true ->
  blank_gap (r ++ NL :: b)
  = Some (List.length r
          + match blank_gap b with Some n => S n | None => 1 end)%nat.
Proof.
  induction r as [|c r IH]; intros H.
  - cbn [app List.length Nat.add]. rewrite blank_gap_cons, isspace_NL.
    destruct (blank_gap b); [reflexivity|]. now rewrite N.eqb_refl.
  - cbn [forallb] in H. apply andb_true_iff in H as [Hc Hr].
    cbn [app List.length]. now rewrite blank_gap_cons, Hc, (IH Hr).
Qed.

Lemma skipn_over_run (r b : str) (k : nat) :
  skipn (List.length r + k) (r ++ b) = skipn k b.
Proof.
  induction r as [|c r IH]; [reflexivity|]. exact IH.
Qed.

Lemma blank_gap_two_runs (r r' b x : str) :
  forallb isspace r = true ->
  forallb isspace r' = true ->
  (blank_gap (x ++ NL :: r ++ NL :: b) = None
   /\ blank_gap (x ++ NL :: r' ++ NL :: b) = None)
  \/ (exists n, (n <= List.length x)%nat
                /\ blank_gap (x ++ NL :: r ++ NL :: b) = Some n
                /\ blank_gap (x ++ NL :: r' ++ NL :: b) = Some n)
  \/ (exists n n',
         blank_gap (x ++ NL :: r ++ NL :: b) = Some n
         /\ blank_gap (x ++ NL :: r' ++ NL :: b) = Some n'
         /\ skipn n (x ++ NL :: r ++ NL :: b)
            = skipn n' (x ++ NL :: r' ++ NL :: b)).
Proof.
  intros Hr Hr'. induction x as [|c x IH].
  - right. right. cbn [app].
    rewrite !blank_gap_cons, isspace_NL.
    rewrite (blank_gap_over_run r b Hr), (blank_gap_over_run r' b Hr').
    eexists. eexists. split; [reflexivity|]. split; [reflexivity|].
    cbn [skipn]. now rewrite !skipn_over_run.
  - cbn [app]. rewrite !blank_gap_cons.
    destruct (isspace c); [|left; now split].
    destruct IH as [[E E']|[(n & Hn & E & E')|(n & n' & E & E' & Hs)]];
      rewrite E, E'.
    + destruct (c =? NL); [|left; now split].
      right. left. exists 1%nat. cbn [List.length]. repeat split. lia.
    + right. left. exists (S n). cbn [List.length]. repeat split. lia.
    + right. right. exists (S n), (S n'). repeat split. exact Hs.
Qed.

Lemma collapse_blank_between (r r' b : str) :
  forallb isspace r = true ->
  forallb isspace r' = true ->
  forall a,
    collapse_blank (a ++ NL :: r ++ NL :: b)
    = collapse_blank (a ++ NL :: r' ++ NL :: b).
Proof.
  intros Hr Hr' a. remember (List.length a) as n eqn:Hn.
  revert a Hn. induction n as [n IH] using lt_wf_ind. intros a Hn.
  assert (Base : collapse_blank (NL :: r ++ NL :: b)
                 = collapse_blank (NL :: r' ++ NL :: b)).
  { rewrite (collapse_blank_match _ _ (blank_gap_over_run r b Hr)).
    rewrite (collapse_blank_match _ _ (blank_gap_over_run r' b Hr')).
    now rewrite !skipn_over_run. }
  destruct a as [|c a]; [exact Base|].
  cbn [app]. destruct (c =? NL) eqn:Hc.
  - apply N.eqb_eq in Hc. subst c.
    destruct (blank_gap_two_runs r r' b a Hr Hr')
      as [[E E']|[(m & Hm & E & E')|(m & m' & E & E' & Hs)]].
    + rewrite (collapse_blank_single _ E), (collapse_blank_single _ E').
      f_equal. apply (IH (List.length a)); [|reflexivity].
      subst n. simpl. lia.
    + rewrite (collapse_blank_match _ _ E), (collapse_blank_match _ _ E').
      rewrite !skipn_app.
      replace (m - List.length a)%nat with 0%nat by lia. cbn [skipn].
      do 2 f_equal. apply (IH (List.length (skipn m a))); [|reflexivity].
      rewrite length_skipn. subst n. simpl.
      destruct (blank_gap_some _ _ E) as [Hpos _]. lia.
    + rewrite (collapse_blank_match _ _ E), (collapse_blank_match _ _ E').
      now rewrite Hs.
  - rewrite !(collapse_blank_other _ _ Hc). f_equal.
    apply (IH (List.length a)); [|reflexivity]. subst n. simpl. lia.
Qed.

Lemma takewhile_dropwhile (p : char -> bool) (s : str) :
  takewhile p s ++ dropwhile p s = s.
Proof.
  induction s as [|c r IH]; [reflexivity|]. cbn [takewhile dropwhile].
  destruct (p c); [cbn [app]; now rewrite IH | reflexivity].
Qed.

Lemma takewhile_all (p : char -> bool) (s : str) :
  forallb p (takewhile p s) = true.
Proof.
  induction s as [|c r IH]; [reflexivity|]. cbn [takewhile].
  destruct (p c) eqn:E; [cbn [forallb]; now rewrite E | reflexivity].
Qed.

Lemma forallb_isspace_rev (s : str) :
  forallb isspace s = true -> forallb isspace (rev s) = true.
Proof.
  intros H. apply filter_visible_nil.
  now rewrite filter_rev, (filter_visible_spaces _ H).
Qed.

Lemma rstrip_all (s : str) : forallb isspace s = true -> rstrip s = [].
Proof.
  intros H. unfold rstrip.
  now rewrite (dropwhile_all _ _ (forallb_isspace_rev _ H)).
Qed.

Lemma squeeze_collapse_spaces (u : str) :
  forallb isspace u = true ->
  forallb isspace (squeeze (collapse_blank u)) = true.
Proof.
  intros H. apply filter_visible_nil.
  now rewrite squeeze_visible, collapse_blank_visible,
    (filter_visible_spaces _ H).
Qed.

Lemma clean_text_spaces (s : str) :
  forallb isspace s = true -> clean_text s = [].
Proof.
  intros H. rewrite clean_text_steps. unfold strip, lstrip.
  now rewrite (dropwhile_all _ _ (squeeze_collapse_spaces _ H)).
Qed.

(** The result for a text from its first, and up to its last,
    non-whitespace character. *)
Lemma clean_text_after_space (u s : str) (c : char) :
  forallb isspace u = true -> isspace c = false ->
  clean_text (u ++ c :: s) = rstrip (c :: squeeze (collapse_blank s)).
Proof.
  intros Hu Hc. rewrite clean_text_steps.
  rewrite (collapse_blank_app_stop _ _ _ Hc).
  rewrite (squeeze_app_stop _ _ _ (not_space_not_SP _ Hc)).
  unfold strip. rewrite (lstrip_app_stop _ _ _ Hc). unfold lstrip.
  now rewrite (dropwhile_all _ _ (squeeze_collapse_spaces _ Hu)).
Qed.

Lemma clean_text_before_space (s u : str) (c : char) :
  isspace c = false -> forallb isspace u = true ->
  clean_text (s ++ c :: u) = lstrip (squeeze (collapse_blank s)) ++ [c].
Proof.
  intros Hc Hu. rewrite clean_text_steps.
  rewrite (collapse_blank_app_stop _ _ _ Hc).
  rewrite (squeeze_app_stop _ _ _ (not_space_not_SP _ Hc)).
  unfold strip. rewrite (lstrip_app_stop _ _ _ Hc).
  rewrite (rstrip_app_stop _ _ _ Hc).
  now rewrite (rstrip_all _ (squeeze_collapse_spaces _ Hu)).
Qed.

Lemma forallb_app_true (p : char -> bool) (a b : str) :
  forallb p a = true -> forallb p b = true -> forallb p (a ++ b) = true.
Proof. intros Ha Hb. rewrite forallb_app. now rewrite Ha, Hb. Qed.

Lemma clean_text_leading (w s : str) :
  forallb isspace w = true -> clean_text (w ++ s) = clean_text s.
Proof.
  intros Hw. rewrite <- (takewhile_dropwhile isspace s).
  pose proof (takewhile_all isspace s) as Ht.
  pose proof (dropwhile_head isspace s) as Hh.
  destruct (dropwhile isspace s) as [|c r].
  - rewrite app_nil_r.
    now rewrite (clean_text_spaces _ (forallb_app_true _ _ _ Hw Ht)),
      (clean_text_spaces _ Ht).
  - rewrite app_assoc.
    rewrite (clean_text_after_space _ _ _ (forallb_app_true _ _ _ Hw Ht) Hh).
    now rewrite (clean_text_after_space _ _ _ Ht Hh).
Qed.

Lemma clean_text_trailing (s w : str) :
  forallb isspace w = true -> clean_text (s ++ w) = clean_text s.
Proof.
  intros Hw.
  assert (D : exists s' u, s = s' ++ u /\ forallb isspace u = true
                           /\ (s' = [] \/ exists s0 c, s' = s0 ++ [c]
                                                       /\ isspace c = false)).
  { exists (rev (dropwhile isspace (rev s))),
           (rev (takewhile isspace (rev s))).
    split; [|split].
    - rewrite <- rev_app_distr, takewhile_dropwhile. now rewrite rev_involutive.
    - apply forallb_isspace_rev, takewhile_all.
    - pose proof (dropwhile_head isspace (rev s)) as Hh.
      destruct (dropwhile isspace (rev s)) as [|c r]; [now left|].
      right. now exists (rev r), c. }
  destruct D as (s' & u & -> & Hu & [->|(s0 & c & -> & Hc)]).
  - cbn [app].
    now rewrite (clean_text_spaces _ (forallb_app_true _ _ _ Hu Hw)),
      (clean_text_spaces _ Hu).
  - rewrite <- !app_assoc. cbn [app].
    rewrite (clean_text_before_space _ _ _ Hc (forallb_app_true _ _ _ Hu Hw)).
    now rewrite (clean_text_before_space _ _ _ Hc Hu).
Qed.

(** A character other than space and newline with a newline-free stretch
    on one side, between two non-whitespace characters. *)
Lemma clean_text_around (a b w1 w2 : str) (c1 c2 t : char) :
  isspace c1 = false -> isspace c2 = false ->
  (t =? SP) = false -> (t =? NL) = false ->
  free_of NL w1 || free_of NL w2 = true ->
  clean_text (a ++ c1 :: w1 ++ t :: w2 ++ c2 :: b)
  = lstrip (squeeze (collapse_blank a))
    ++ c1 :: squeeze (collapse_blank w1)
    ++ t :: squeeze (collapse_blank w2)
    ++ c2 :: rstrip (squeeze (collapse_blank b)).
Proof.
  intros H1 H2 Hsp Hnl Hw. rewrite clean_text_steps.
  rewrite (collapse_blank_app_stop _ _ _ H1).
  change (w1 ++ t :: w2 ++ c2 :: b) with (w1 ++ (t :: w2) ++ c2 :: b).
  rewrite (app_assoc w1 (t :: w2) (c2 :: b)).
  rewrite (collapse_blank_app_stop _ _ _ H2).
  rewrite (collapse_blank_around _ _ _ Hnl Hw).
  rewrite (squeeze_app_stop _ _ _ (not_space_not_SP _ H1)).
  rewrite (squeeze_app_stop _ _ _ (not_space_not_SP _ H2)).
  rewrite (squeeze_app_stop _ _ _ Hsp).
  unfold strip. rewrite (lstrip_app_stop _ _ _ H1).
  set (A := lstrip (squeeze (re_sub re_blank_lines [NL; NL] a))).
  set (M := squeeze (re_sub re_blank_lines [NL; NL] w1)
            ++ t :: squeeze (re_sub re_blank_lines [NL; NL] w2)).
  change (A ++ c1 :: M ++ c2 :: ?B) with (A ++ (c1 :: M) ++ c2 :: B).
  rewrite app_assoc, (rstrip_app_stop _ _ _ H2), <- app_assoc.
  subst M. cbn [app]. now rewrite <- app_assoc.
Qed.

(** ** The order of the questions *)

Section ScanOrder.

Variable unicode_lower : str -> str.
Variable unicode_decimal : char -> bool.

Local Abbreviation step := (scan_line unicode_lower unicode_decimal).
Local Abbreviation question_of :=
  (fun line => strip (re_sub (re_bullet unicode_decimal) [] line)).


End ScanOrder.

(** ** The PDF emitter up to its output *)




(** ** Paragraphs and lines *)

Lemma split_on_all_free (sep : char) (s : str) :
  forallb (free_of sep) (split_on sep s) = true.
Proof.
  induction s as [|c r IH]; [reflexivity|]. cbn [split_on].
  destruct (c =? sep) eqn:Hc; [exact IH|].
  destruct (split_on sep r) as [|f fs]; cbn [forallb free_of] in *;
    now rewrite Hc.
Qed.

Lemma paragraph_of_line_free (line : str) :
  free_of NL line = true -> free_of NL (paragraph_of_line line) = true.
Proof.
  intros H. unfold paragraph_of_line. now destruct (strip line).
Qed.

Lemma paragraphs_are_lines (lines : list str) :
  List.map paragraph_of_line lines = lines
  <-> forallb (fun line => truthy (strip line) || negb (truthy line)) lines
      = true.
Proof.
  induction lines as [|l ls IH]; [split; reflexivity|].
  cbn [List.map forallb]. split.
  - intros H. injection H as Hl Hls. apply andb_true_iff. split.
    + unfold paragraph_of_line in Hl.
      destruct (strip l); [now subst l | reflexivity].
    + now apply IH.
  - intros H. apply andb_true_iff in H as [Hl Hls]. f_equal.
    + unfold paragraph_of_line. destruct (strip l); [|reflexivity].
      cbn [truthy orb] in Hl. now destruct l.
    + now apply IH.
Qed.

Lemma create_docx_serialises (serialise : list str -> outcome bytes)
  (resume_text : str) :
  create_docx_from_text (docx_paragraphs serialise) resume_text
  = serialise (List.map paragraph_of_line (split_on NL resume_text)).
Proof.
  unfold create_docx_from_text. cbn [docx_paragraphs Document bind].
  change (for_each _ (split_on NL resume_text) [])
    with (for_each
            (fun doc line =>
               match strip line with
               | [] => add_paragraph (docx_paragraphs serialise) doc []
               | _ :: _ => add_paragraph (docx_paragraphs serialise) doc line
               end) (split_on NL resume_text) []).
  rewrite add_paragraphs. cbn [bind app save docx_paragraphs].
  destruct (serialise _); reflexivity.
Qed.

(** The stand-in format gives back what was serialised, for a file that is
    not empty. *)
Lemma records_law (c : N) (file : bytes) :
  forall paragraphs,
    records_serialise paragraphs = Returned (c :: file) ->
    paragraph_texts records_reader (split_on 12 (c :: file)) = paragraphs.
Proof.
  intros paragraphs Hs. cbn [records_reader paragraph_texts].
  unfold records_serialise in Hs.
  destruct (forallb (free_of 12) paragraphs) eqn:E; [|discriminate].
  injection Hs as Hs. destruct paragraphs as [|p ps]; [discriminate|].
  rewrite <- Hs. now apply split_on_join.
Qed.

(** * The properties of the specification *)

(** C1: on the five-line analysis text of the end-to-end scenario
    ("Missing Information Needed:", two numbered questions, "Industry
    Recommendations:", one more line) [extract_questions_from_analysis]
    returns exactly the two questions, in order, without their numbering. *)
Theorem extract_sample_analysis (unicode_lower : str -> str)
  (unicode_decimal : char -> bool) :
  split_on NL sample_analysis
  = [ lit "Missing Information Needed:";
      lit "1. What was your role at Company X?";
      lit "2. Can you quantify your sales results?";
      lit "Industry Recommendations:";
      lit "Consider emphasizing leadership." ]
  /\ extract_questions_from_analysis unicode_lower unicode_decimal
       sample_analysis
     = [ lit "What was your role at Company X?";
         lit "Can you quantify your sales results?" ].
Proof. split; vm_compute; reflexivity. Qed.

(** Against C2 as stated: the tab of ["a\n\t\nb"] lies between two newlines,
    the blank-line substitution replaces it, and the result has no tab. *)
Lemma clean_text_drops_tab :
  In TAB [97; NL; TAB; NL; 98]
  /\ isspace TAB = true
  /\ clean_text [97; NL; TAB; NL; 98] = [97; NL; NL; 98]
  /\ ~ In TAB (clean_text [97; NL; TAB; NL; 98]).
Proof.
  repeat split.
  - right. right. left. reflexivity.
  - vm_compute. intros H. repeat (destruct H as [H|H]; [discriminate|]).
    exact H.
Qed.

(** C2, amended: [clean_text] removes whitespace of every kind, tabs
    included, in exactly two places: in a run of whitespace between two
    newlines, and at the start and the end of the text.  Every other tab
    (or other character that is neither a space nor a newline) is kept in
    place.

    Kept: a character [t] other than space and newline that stands between
    two non-whitespace characters [c1] and [c2], with no newline between
    [c1] and [t] or no newline between [t] and [c2], is still there between
    [c1] and [c2]; around it the text is what the two substitutions make of
    each side on its own.

    Removed: whitespace [r] between two newlines and whitespace [w] before
    or after the text leave no trace in the result. *)
Theorem clean_text_whitespace_kinds :
  (forall (a b w1 w2 : str) (c1 c2 t : char),
      isspace c1 = false ->
      isspace c2 = false ->
      (t =? SP) = false ->
      (t =? NL) = false ->
      free_of NL w1 || free_of NL w2 = true ->
      clean_text (a ++ c1 :: w1 ++ t :: w2 ++ c2 :: b)
      = lstrip (re_sub re_spaces [SP] (re_sub re_blank_lines [NL; NL] a))
        ++ c1 :: re_sub re_spaces [SP] (re_sub re_blank_lines [NL; NL] w1)
        ++ t :: re_sub re_spaces [SP] (re_sub re_blank_lines [NL; NL] w2)
        ++ c2 :: rstrip (re_sub re_spaces [SP]
                           (re_sub re_blank_lines [NL; NL] b)))
  /\ (forall a r b : str,
         forallb isspace r = true ->
         clean_text (a ++ NL :: r ++ NL :: b)
         = clean_text (a ++ NL :: NL :: b))
  /\ (forall w s : str,
         forallb isspace w = true ->
         clean_text (w ++ s) = clean_text s
         /\ clean_text (s ++ w) = clean_text s).
Proof.
  split; [|split].
  - intros a b w1 w2 c1 c2 t H1 H2 Hsp Hnl Hw.
    rewrite !collapse_spaces_squeeze.
    now apply clean_text_around.
  - intros a r b Hr. rewrite !clean_text_steps. do 2 f_equal.
    now apply (collapse_blank_between r [] b Hr).
  - intros w s Hw. split.
    + now apply clean_text_leading.
    + now apply clean_text_trailing.
Qed.

(** The amended C2 on tabs beside a blank line: in ["a\t\n \nb"] and in
    ["a\n \n\tb"] the tab is kept and the blank line collapsed; in
    ["a\n\t\nb"] and in ["\ta\t"] the tabs go. *)
Lemma clean_text_whitespace_kinds_witness :
  clean_text ([] ++ 97 :: [] ++ TAB :: [NL; SP; NL] ++ 98 :: [])
  = [97; TAB; NL; NL; 98]
  /\ clean_text ([] ++ 97 :: [NL; SP; NL] ++ TAB :: [] ++ 98 :: [])
     = [97; NL; NL; TAB; 98]
  /\ clean_text ([97] ++ NL :: [TAB] ++ NL :: [98]) = clean_text [97; NL; NL; 98]
  /\ clean_text ([TAB] ++ [97]) = [97]
  /\ clean_text ([97] ++ [TAB]) = [97].
Proof.
  destruct clean_text_whitespace_kinds as (Kept & Between & Ends).
  split; [|split; [|split; [|split]]].
  - refine (eq_trans (Kept [] [] [] [NL; SP; NL] 97 98 TAB
                        eq_refl eq_refl eq_refl eq_refl eq_refl) _).
    reflexivity.
  - refine (eq_trans (Kept [] [] [NL; SP; NL] [] 97 98 TAB
                        eq_refl eq_refl eq_refl eq_refl eq_refl) _).
    reflexivity.
  - apply (Between [97] [TAB] [98]). reflexivity.
  - refine (eq_trans (proj1 (Ends [TAB] [97] eq_refl)) _). reflexivity.
  - refine (eq_trans (proj2 (Ends [TAB] [97] eq_refl)) _). reflexivity.
Defined.

(** C3: when serialisation raises, [create_docx_from_text] does not return
    the empty byte string: the exception of [doc.save] leaves the function,
    while [create_pdf_from_text], given the same failure, reports it and
    returns [b""]. *)
Theorem create_docx_propagates_save_failure :
  create_docx_from_text docx_save_fails (lit "Jane Doe") = Raised disk_full
  /\ forall isupper textwrap_fill,
       create_pdf_from_text isupper textwrap_fill fpdf_output_fails
         (lit "Jane Doe")
       = ([lit "Error creating PDF: " ++ disk_full], Returned []).
Proof.
  split; [reflexivity|]. intros isupper textwrap_fill.
  unfold create_pdf_from_text, create_pdf_body.
  cbn [fpdf_output_fails FPDF call output bind].
  change (split_on NL (lit "Jane Doe")) with [lit "Jane Doe"].
  cbn [for_each bind]. unfold pdf_line.
  change (strip (lit "Jane Doe")) with (lit "Jane Doe").
  change (truthy (lit "Jane Doe")) with true. cbv iota.
  destruct (isupper (lit "Jane Doe") || ends_with_colon (lit "Jane Doe"));
    reflexivity.
Qed.

(** C4: [clean_text] is idempotent. *)
Theorem clean_text_idempotent (x : str) :
  clean_text (clean_text x) = clean_text x.
Proof.
  destruct (clean_text_normal x) as (Hb & Hs & Ht).
  rewrite (clean_text_steps (clean_text x)).
  now rewrite (collapse_blank_fixed _ Hb), (squeeze_fixed _ Hs).
Qed.

(** C5: the result of [clean_text] has no three (or more) newlines in a row
    and no two (or more) spaces in a row. *)
Theorem clean_text_no_long_runs (text : str) :
  (forall a b (n : nat),
      clean_text text <> a ++ repeat NL (3 + n) ++ b)
  /\ (forall a b (n : nat),
         clean_text text <> a ++ repeat SP (2 + n) ++ b).
Proof.
  destruct (clean_text_normal text) as (Hb & Hs & _).
  split; intros a b n E.
  - rewrite E in Hb. apply blank_collapsed_app in Hb as [_ Hb].
    cbn [Nat.add repeat app] in Hb. now rewrite blank_collapsed_triple in Hb.
  - rewrite E in Hs. apply spaces_collapsed_app in Hs as [_ Hs].
    cbn [Nat.add repeat app] in Hs. now rewrite spaces_collapsed_pair in Hs.
Qed.

(** C6: when no line of the analysis text contains one of the five
    indicator phrases after lower-casing, the extractor returns the four
    fallback questions, word for word and in order. *)
Theorem extract_fallback_without_indicator (unicode_lower : str -> str)
  (unicode_decimal : char -> bool) (analysis_text : str) :
  forallb (free_of_indicators unicode_lower) (split_on NL analysis_text)
  = true ->
  extract_questions_from_analysis unicode_lower unicode_decimal analysis_text
  = [ lit "What specific achievements or metrics can you provide?";
      lit "Are there any additional skills or certifications to highlight?";
      lit "What is your target job role or industry?";
      lit "Any additional experiences or projects to include?" ].
Proof.
  intros H. unfold extract_questions_from_analysis, collected_questions,
    scan_lines.
  rewrite scan_stays_outside; [reflexivity|].
  rewrite forallb_forall in *. intros line Hl. specialize (H line Hl).
  unfold free_of_indicators in H. apply negb_true_iff in H.
  apply negb_true_iff. now apply mentions_lower.
Qed.

(** C6 on an analysis with section headers but no indicator phrase. *)
Lemma extract_fallback_without_indicator_witness :
  forallb (free_of_indicators sample_unicode_lower) (split_on NL sample_no_header)
  = true
  /\ extract_questions_from_analysis sample_unicode_lower sample_unicode_decimal
       sample_no_header
     = fallback_questions.
Proof.
  split; [reflexivity|].
  apply (extract_fallback_without_indicator sample_unicode_lower sample_unicode_decimal
           sample_no_header).
  reflexivity.
Defined.

(** C7: a line whose lower-cased, trimmed form contains an indicator phrase
    puts the scan inside the question section whatever the state before it
    (also after an earlier exit), and the list of questions is left as it
    was: the exit test is not applied to the line and the line is not
    emitted.  The same holds at the end of any sequence of lines. *)
Theorem indicator_line_priority (unicode_lower : str -> str)
  (unicode_decimal : char -> bool) (line : str) :
  mentions_indicator unicode_lower line = true ->
  (forall st : scan_state,
      scan_line unicode_lower unicode_decimal st line = (true, snd st))
  /\ (forall lines : list str,
         scan_lines unicode_lower unicode_decimal (lines ++ [line])
         = (true, snd (scan_lines unicode_lower unicode_decimal lines))).
Proof.
  intros H. split.
  - intros st. now apply scan_line_indicator.
  - intros lines. unfold scan_lines. rewrite fold_left_app. cbn [fold_left].
    now apply scan_line_indicator.
Qed.

(** C7 on the line "Questions:", a short label that would end the section
    if the exit test were applied to it: after a section that was entered
    and left, it re-enters and emits nothing. *)
Lemma indicator_line_priority_witness :
  is_short_label (lit "Questions:") = true
  /\ scan_lines sample_unicode_lower sample_unicode_decimal
       [lit "Missing information"; lit "Summary:"]
     = (false, [])
  /\ scan_lines sample_unicode_lower sample_unicode_decimal
       ([lit "Missing information"; lit "Summary:"] ++ [lit "Questions:"])
     = (true, []).
Proof.
  split; [reflexivity|]. split; [reflexivity|].
  apply (proj2 (indicator_line_priority sample_unicode_lower sample_unicode_decimal
                  (lit "Questions:") eq_refl)
           [lit "Missing information"; lit "Summary:"]).
Defined.



(** C9: for every resume text, the empty one included,
    [build_analysis_prompt] returns a prompt that holds the text as it is
    (between the fixed head and tail of the template) and each of the six
    instruction labels. *)
Theorem build_analysis_prompt_contents (resume_text : str) :
  (exists before after,
      build_analysis_prompt resume_text = before ++ resume_text ++ after)
  /\ contains resume_text (build_analysis_prompt resume_text) = true
  /\ forallb (fun label => contains label (build_analysis_prompt resume_text))
       analysis_labels
     = true
  /\ build_analysis_prompt []
     = analysis_prompt_head ++ analysis_prompt_tail.
Proof.
  unfold build_analysis_prompt. repeat split.
  - now exists analysis_prompt_head, analysis_prompt_tail.
  - apply contains_middle.
  - assert (T : forallb (fun label => contains label analysis_prompt_tail)
                  analysis_labels = true) by (vm_compute; reflexivity).
    rewrite forallb_forall in *. intros label Hl.
    now apply contains_app_r, contains_app_r, T.
Qed.

(** C10: the extractor never returns the empty list: with the fallback
    standing in for an empty scan, its result has between one and six
    entries. *)
Theorem extract_never_empty (unicode_lower : str -> str)
  (unicode_decimal : char -> bool) (analysis_text : str) :
  extract_questions_from_analysis unicode_lower unicode_decimal analysis_text
  <> []
  /\ (1 <= List.length
            (extract_questions_from_analysis unicode_lower unicode_decimal
               analysis_text) <= 6)%nat.
Proof.
  pose proof (extract_length unicode_lower unicode_decimal analysis_text) as H.
  split; [|exact H].
  intros E. rewrite E in H. simpl in H. lia.
Qed.

(** * Further properties *)



(** X2: [clean_text] removes whitespace only: the non-whitespace characters
    of its result are those of the input, in the same order. *)
Theorem clean_text_keeps_visible (text : str) :
  filter visible (clean_text text) = filter visible text.
Proof.
  rewrite clean_text_steps, strip_visible, squeeze_visible.
  apply collapse_blank_visible.
Qed.

(** X3: the result of [clean_text] is trimmed: stripping it again on the
    left or on the right changes nothing. *)
Theorem clean_text_trimmed (text : str) :
  lstrip (clean_text text) = clean_text text
  /\ rstrip (clean_text text) = clean_text text.
Proof.
  rewrite clean_text_steps.
  set (z := squeeze (re_sub re_blank_lines [NL; NL] text)).
  unfold strip. split.
  - pose proof (dropwhile_head isspace z) as Hh. fold (lstrip z) in Hh.
    destruct (lstrip z) as [|c t]; [reflexivity|].
    pose proof (rstrip_app_stop [] t c Hh) as R. cbn [app] in R. rewrite R.
    unfold lstrip. cbn [dropwhile]. now rewrite Hh.
  - unfold rstrip at 1 2. now rewrite rev_involutive, dropwhile_idem.
Qed.

(** X4: [clean_text] returns the empty string exactly when its input is
    empty or consists of whitespace only. *)
Theorem clean_text_empty_iff (text : str) :
  clean_text text = [] <-> forallb isspace text = true.
Proof.
  assert (V : filter visible (clean_text text) = filter visible text).
  { rewrite clean_text_steps, strip_visible, squeeze_visible.
    apply collapse_blank_visible. }
  split; intros H.
  - apply filter_visible_nil. now rewrite <- V, H.
  - destruct (clean_text_normal text) as (_ & _ & Ht).
    rewrite (filter_visible_spaces _ H) in V. apply filter_visible_nil in V.
    rewrite <- Ht. unfold strip, lstrip. now rewrite (dropwhile_all _ _ V).
Qed.

(** X5: [clean_text] never makes a text longer. *)
Theorem clean_text_length (text : str) :
  (List.length (clean_text text) <= List.length text)%nat.
Proof.
  rewrite clean_text_steps.
  pose proof (strip_length (squeeze (re_sub re_blank_lines [NL; NL] text))).
  pose proof (squeeze_length (re_sub re_blank_lines [NL; NL] text)).
  pose proof (collapse_blank_length text). lia.
Qed.

(** X6: every question the extractor returns has more than ten characters,
    has no whitespace at either end, and does not begin with a hyphen, a
    bullet, a digit or a dot. *)
Theorem extract_question_shape (unicode_lower : str -> str)
  (unicode_decimal : char -> bool) (analysis_text : str) :
  Forall (fun q =>
            (10 < List.length q)%nat
            /\ strip q = q
            /\ exists c t, q = c :: t /\ bullet_class unicode_decimal c = false)
         (extract_questions_from_analysis unicode_lower unicode_decimal
            analysis_text).
Proof.
  unfold extract_questions_from_analysis.
  set (Q := fun q : str =>
              (10 < List.length q)%nat
              /\ strip q = q
              /\ exists c t, q = c :: t
                             /\ bullet_class unicode_decimal c = false).
  assert (HF : Forall Q fallback_questions).
  { repeat constructor; vm_compute; try lia; eexists; eexists;
      (split; [reflexivity | reflexivity]). }
  assert (HC : Forall Q (collected_questions unicode_lower unicode_decimal
                           analysis_text)).
  { unfold collected_questions, scan_lines.
    apply scan_questions_invariant; [|constructor].
    intros line _ Hlen.
    destruct (question_shape unicode_decimal line) as [Hs [E|Hc]].
    - rewrite E in Hlen. simpl in Hlen. lia.
    - repeat split; assumption. }
  cbv zeta. destruct (collected_questions _ _ _) as [|q qs];
    now apply Forall_firstn.
Qed.

(** X7: the extractor does not rewrite questions: unless it falls back to
    the fixed list, each question it returns is a contiguous part of one
    line of the analysis text. *)
Theorem extract_questions_verbatim (unicode_lower : str -> str)
  (unicode_decimal : char -> bool) (analysis_text : str) :
  extract_questions_from_analysis unicode_lower unicode_decimal analysis_text
  = fallback_questions
  \/ Forall (fun q =>
               exists line a b,
                 In line (split_on NL analysis_text) /\ line = a ++ q ++ b)
            (extract_questions_from_analysis unicode_lower unicode_decimal
               analysis_text).
Proof.
  unfold extract_questions_from_analysis.
  assert (HC : Forall (fun q =>
                         exists line a b,
                           In line (split_on NL analysis_text)
                           /\ line = a ++ q ++ b)
                      (collected_questions unicode_lower unicode_decimal
                         analysis_text)).
  { unfold collected_questions, scan_lines.
    apply scan_questions_invariant; [|constructor].
    intros line Hl _.
    destruct (question_verbatim unicode_decimal line) as (a & b & E).
    now exists line, a, b. }
  cbv zeta. destruct (collected_questions _ _ _) as [|q qs].
  - now left.
  - right. now apply Forall_firstn.
Qed.

(** X8: a header line with an indicator phrase, followed by one line per
    question, each a marker (["- "], ["1. "], a bullet ...) and a question
    that is longer than ten characters, starts with no bullet character,
    ends with no whitespace and repeats no indicator phrase: the scan
    collects exactly the questions, markers stripped, in order, and the
    extractor returns the first six of them. *)
Theorem extract_marked_items (unicode_lower : str -> str)
  (unicode_decimal : char -> bool) (header : str)
  (items : list (str * str)) :
  mentions_indicator unicode_lower header = true ->
  free_of NL header = true ->
  forallb (item_ok unicode_lower unicode_decimal) items = true ->
  collected_questions unicode_lower unicode_decimal
    (join [NL] (header :: List.map item_line items))
  = List.map snd items
  /\ extract_questions_from_analysis unicode_lower unicode_decimal
       (join [NL] (header :: List.map item_line items))
     = match items with
       | [] => fallback_questions
       | _ :: _ => firstn 6 (List.map snd items)
       end.
Proof.
  intros Hh Hf Hi.
  assert (C : collected_questions unicode_lower unicode_decimal
                (join [NL] (header :: List.map item_line items))
              = List.map snd items).
  { unfold collected_questions, scan_lines. rewrite split_on_join.
    - cbn [fold_left]. rewrite (scan_line_indicator _ _ _ _ Hh).
      cbn [snd]. now rewrite (scan_items _ _ _ _ Hi).
    - cbn [forallb]. rewrite Hf. cbn [andb].
      rewrite forallb_forall in *. intros l Hl.
      apply in_map_iff in Hl as (it & <- & Hit).
      apply (item_line_free unicode_lower unicode_decimal). now apply Hi. }
  split; [exact C|].
  unfold extract_questions_from_analysis. rewrite C.
  destruct items; reflexivity.
Qed.

(** X8 on a list with a hyphen, a number and a bullet as markers. *)
Lemma extract_marked_items_witness :
  extract_questions_from_analysis sample_unicode_lower sample_unicode_decimal
    (join [NL]
       (lit "Clarification needed"
        :: List.map item_line
             [ (lit "- ", lit "What was your job title?");
               (lit "1. ", lit "Which tools did you use daily?");
               ([BULLET; SP], lit "How long did the project run?") ]))
  = [ lit "What was your job title?";
      lit "Which tools did you use daily?";
      lit "How long did the project run?" ].
Proof.
  apply (proj2 (extract_marked_items sample_unicode_lower
                  sample_unicode_decimal (lit "Clarification needed")
                  [ (lit "- ", lit "What was your job title?");
                    (lit "1. ", lit "Which tools did you use daily?");
                    ([BULLET; SP], lit "How long did the project run?") ]
                  eq_refl eq_refl eq_refl)).
Defined.

(** X9: text before the first line with an indicator phrase does not count:
    when no line of [before] has one, the extractor returns for
    [before + "\n" + rest] what it returns for [rest]. *)
Theorem extract_ignores_preamble (unicode_lower : str -> str)
  (unicode_decimal : char -> bool) (before rest : str) :
  forallb (fun line => negb (mentions_indicator unicode_lower line))
          (split_on NL before) = true ->
  extract_questions_from_analysis unicode_lower unicode_decimal
    (before ++ NL :: rest)
  = extract_questions_from_analysis unicode_lower unicode_decimal rest.
Proof.
  intros H. unfold extract_questions_from_analysis, collected_questions,
    scan_lines.
  rewrite split_on_app, fold_left_app.
  now rewrite (scan_stays_outside _ _ _ _ H).
Qed.

(** X9 on an analysis whose first section looks like a list of questions. *)
Lemma extract_ignores_preamble_witness :
  extract_questions_from_analysis sample_unicode_lower sample_unicode_decimal
    (lit "Strengths:
- Is the summary at the top long enough?" ++ NL :: sample_analysis)
  = extract_questions_from_analysis sample_unicode_lower
      sample_unicode_decimal sample_analysis.
Proof.
  apply (extract_ignores_preamble sample_unicode_lower sample_unicode_decimal
           (lit "Strengths:
- Is the summary at the top long enough?") sample_analysis).
  reflexivity.
Defined.

(** X10: given a dict with the keys format, tone, length and industry,
    [build_rewrite_prompt] returns a prompt that holds the resume text and
    the extra information as they are and each style value after its
    label. *)
Theorem build_rewrite_prompt_contents (resume_text extra_info : str)
  (style_preferences : dict) (f t l i : str) :
  dict_get style_preferences (lit "format") = Some f ->
  dict_get style_preferences (lit "tone") = Some t ->
  dict_get style_preferences (lit "length") = Some l ->
  dict_get style_preferences (lit "industry") = Some i ->
  exists prompt,
    build_rewrite_prompt resume_text extra_info style_preferences
    = Returned prompt
    /\ contains resume_text prompt = true
    /\ contains extra_info prompt = true
    /\ contains (lit "- Format: " ++ f) prompt = true
    /\ contains (lit "- Tone: " ++ t) prompt = true
    /\ contains (lit "- Length: " ++ l) prompt = true
    /\ contains (lit "- Industry Focus: " ++ i) prompt = true.
Proof.
  intros Hf Ht Hl Hi. eexists. split.
  - apply (build_rewrite_prompt_returned _ _ _ f t l i); assumption.
  - apply rewrite_prompt_of_contains.
Qed.

(** X10 on a dict whose bindings come in another order. *)
Lemma build_rewrite_prompt_contents_witness :
  exists prompt,
    build_rewrite_prompt (lit "Jane Doe") (lit "Q: Role?")
      [ (lit "industry", lit "Finance"); (lit "length", lit "Concise (1 page)");
        (lit "tone", lit "Dynamic"); (lit "format", lit "Modern") ]
    = Returned prompt
    /\ contains (lit "Jane Doe") prompt = true
    /\ contains (lit "Q: Role?") prompt = true
    /\ contains (lit "- Format: " ++ lit "Modern") prompt = true
    /\ contains (lit "- Tone: " ++ lit "Dynamic") prompt = true
    /\ contains (lit "- Length: " ++ lit "Concise (1 page)") prompt = true
    /\ contains (lit "- Industry Focus: " ++ lit "Finance") prompt = true.
Proof.
  apply (build_rewrite_prompt_contents (lit "Jane Doe") (lit "Q: Role?")
           [ (lit "industry", lit "Finance");
             (lit "length", lit "Concise (1 page)");
             (lit "tone", lit "Dynamic"); (lit "format", lit "Modern") ]
           (lit "Modern") (lit "Dynamic") (lit "Concise (1 page)")
           (lit "Finance"));
    reflexivity.
Defined.

(** X11: [build_rewrite_prompt] returns a prompt exactly when the dict has
    all four keys; otherwise the lookup of the first missing one, in the
    order format, tone, length, industry, raises its [KeyError]. *)
Theorem build_rewrite_prompt_keys (resume_text extra_info : str)
  (style_preferences : dict) :
  ((exists prompt,
       build_rewrite_prompt resume_text extra_info style_preferences
       = Returned prompt)
   <-> dict_get style_preferences (lit "format") <> None
       /\ dict_get style_preferences (lit "tone") <> None
       /\ dict_get style_preferences (lit "length") <> None
       /\ dict_get style_preferences (lit "industry") <> None)
  /\ forall e,
       build_rewrite_prompt resume_text extra_info style_preferences
       = Raised e ->
       exists key,
         e = [39] ++ key ++ [39]
         /\ dict_get style_preferences key = None
         /\ exists earlier later,
              [lit "format"; lit "tone"; lit "length"; lit "industry"]
              = earlier ++ key :: later
              /\ Forall (fun k => dict_get style_preferences k <> None)
                        earlier.
Proof.
  unfold build_rewrite_prompt, getitem.
  destruct (dict_get style_preferences (lit "format")) as [f|] eqn:Ef;
    cbn [bind].
  2:{ split.
      - split; [intros [p H]; discriminate | intros [H _]; now destruct H].
      - intros e H. injection H as <-. exists (lit "format").
        repeat split; [exact Ef|]. exists [], [lit "tone"; lit "length";
          lit "industry"]. split; [reflexivity | constructor]. }
  destruct (dict_get style_preferences (lit "tone")) as [t|] eqn:Et;
    cbn [bind].
  2:{ split.
      - split; [intros [p H]; discriminate | intros (_ & H & _); now destruct H].
      - intros e H. injection H as <-. exists (lit "tone").
        repeat split; [exact Et|]. exists [lit "format"], [lit "length";
          lit "industry"]. split; [reflexivity|].
        repeat constructor. now rewrite Ef. }
  destruct (dict_get style_preferences (lit "length")) as [l|] eqn:El;
    cbn [bind].
  2:{ split.
      - split; [intros [p H]; discriminate
               | intros (_ & _ & H & _); now destruct H].
      - intros e H. injection H as <-. exists (lit "length").
        repeat split; [exact El|]. exists [lit "format"; lit "tone"],
          [lit "industry"]. split; [reflexivity|].
        repeat constructor; [now rewrite Ef | now rewrite Et]. }
  destruct (dict_get style_preferences (lit "industry")) as [i|] eqn:Ei;
    cbn [bind].
  2:{ split.
      - split; [intros [p H]; discriminate
               | intros (_ & _ & _ & H); now destruct H].
      - intros e H. injection H as <-. exists (lit "industry").
        repeat split; [exact Ei|]. exists [lit "format"; lit "tone";
          lit "length"], []. split; [reflexivity|].
        repeat constructor;
          [now rewrite Ef | now rewrite Et | now rewrite El]. }
  split.
  - split; [intros _; repeat split; discriminate | intros _; now eexists].
  - intros e H. discriminate.
Qed.

(** X12: with the dict that [main] builds from the sidebar,
    [build_rewrite_prompt] never raises, and an industry field left empty
    reaches the prompt as "General". *)
Theorem main_style_prompt (resume_text extra_info : str)
  (format_style tone_style length_pref industry_focus : str) :
  exists prompt,
    build_rewrite_prompt resume_text extra_info
      (main_style_preferences format_style tone_style length_pref
         industry_focus)
    = Returned prompt
    /\ contains (lit "- Format: " ++ format_style) prompt = true
    /\ contains (lit "- Tone: " ++ tone_style) prompt = true
    /\ contains (lit "- Length: " ++ length_pref) prompt = true
    /\ contains (lit "- Industry Focus: "
                 ++ match industry_focus with
                    | [] => lit "General"
                    | _ :: _ => industry_focus
                    end) prompt = true.
Proof.
  eexists. split.
  - apply (build_rewrite_prompt_returned _ _ _ format_style tone_style
             length_pref
             (if truthy industry_focus then industry_focus
              else lit "General")); reflexivity.
  - pose proof (rewrite_prompt_of_contains format_style tone_style
                  length_pref
                  (if truthy industry_focus then industry_focus
                   else lit "General") resume_text extra_info) as H.
    cbv zeta in H. destruct H as (_ & _ & Hf & Ht & Hl & Hi).
    repeat split; try assumption. now destruct industry_focus.
Qed.

(** X13: the loop over the answers keeps exactly the answered questions:
    an entry is in [processed_answers] if and only if it is
    ["Q: <question>\nA: <answer>"] for a question whose answer, with the
    whitespace at its ends removed, is not empty.  Blank answers leave no
    entry. *)
Theorem processed_answers_entries (questions : list str)
  (answers : nat -> option str) (entry : str) :
  In entry (process_answers 0 questions answers [])
  <-> exists i question,
        nth_error questions i = Some question
        /\ strip (answers_get answers i) <> []
        /\ entry = lit "Q: " ++ question ++ [NL] ++ lit "A: "
                   ++ strip (answers_get answers i).
Proof.
  rewrite process_answers_In. cbn [Nat.add]. split.
  - intros [[]|(j & q & Hn & Ht & He)]. exists j, q.
    repeat split; [exact Hn | | exact He].
    intros E. now rewrite E in Ht.
  - intros (j & q & Hn & Ht & He). right. exists j, q.
    repeat split; [exact Hn | | exact He].
    destruct (strip (answers_get answers j)); [now destruct Ht | reflexivity].
Qed.

(** X14: an answered question reaches the rewrite request: when the answer
    to a question is not blank, [main] builds a prompt, and the prompt
    holds the question with the trimmed answer as well as the resume text. *)
Theorem main_rewrite_prompt_answer (resume_text : str)
  (questions : list str) (answers : nat -> option str)
  (format_style tone_style length_pref industry_focus : str)
  (i : nat) (question : str) :
  nth_error questions i = Some question ->
  strip (answers_get answers i) <> [] ->
  exists prompt,
    main_rewrite_prompt resume_text questions answers
      (main_style_preferences format_style tone_style length_pref
         industry_focus)
    = Some (Returned prompt)
    /\ contains (lit "Q: " ++ question ++ [NL] ++ lit "A: "
                 ++ strip (answers_get answers i)) prompt = true
    /\ contains resume_text prompt = true.
Proof.
  intros Hn Ha.
  assert (HIn : In (answer_entry question (strip (answers_get answers i)))
                   (process_answers 0 questions answers [])).
  { apply process_answers_In. right. exists i, question. cbn [Nat.add].
    repeat split; [exact Hn|].
    destruct (strip (answers_get answers i)); [now destruct Ha | reflexivity]. }
  unfold main_rewrite_prompt.
  destruct (process_answers 0 questions answers []) as [|e es] eqn:E;
    [destruct HIn|].
  rewrite (build_rewrite_prompt_returned _ _ _ format_style tone_style
             length_pref
             (if truthy industry_focus then industry_focus
              else lit "General")) by reflexivity.
  eexists. split; [reflexivity|]. split.
  - apply rewrite_prompt_of_info. now apply contains_join.
  - apply rewrite_prompt_of_contains.
Qed.

(** X14 with two questions, the first left blank. *)
Lemma main_rewrite_prompt_answer_witness :
  exists prompt,
    main_rewrite_prompt (lit "Jane Doe")
      [lit "What is your target role?"; lit "Which tools do you use?"]
      (fun i => match i with
                | 0%nat => Some (lit "   ")
                | 1%nat => Some (lit " Rocq and OCaml ")
                | _ => None
                end)
      (main_style_preferences (lit "Modern") (lit "Technical")
         (lit "Concise (1 page)") [])
    = Some (Returned prompt)
    /\ contains (lit "Q: " ++ lit "Which tools do you use?" ++ [NL]
                 ++ lit "A: " ++ lit "Rocq and OCaml") prompt = true
    /\ contains (lit "Jane Doe") prompt = true.
Proof.
  apply (main_rewrite_prompt_answer (lit "Jane Doe")
           [lit "What is your target role?"; lit "Which tools do you use?"]
           (fun i => match i with
                     | 0%nat => Some (lit "   ")
                     | 1%nat => Some (lit " Rocq and OCaml ")
                     | _ => None
                     end)
           (lit "Modern") (lit "Technical") (lit "Concise (1 page)") []
           1 (lit "Which tools do you use?")).
  - reflexivity.
  - discriminate.
Defined.

(** X15: no rewrite request is built (the warning is shown instead)
    exactly when every question was left without an answer or with a blank
    one. *)
Theorem main_rewrite_prompt_none (resume_text : str)
  (questions : list str) (answers : nat -> option str)
  (style_preferences : dict) :
  main_rewrite_prompt resume_text questions answers style_preferences = None
  <-> forallb (fun i => negb (truthy (strip (answers_get answers i))))
              (seq 0 (List.length questions)) = true.
Proof.
  unfold main_rewrite_prompt. split.
  - intros H. apply forallb_forall. intros i Hi. apply in_seq in Hi.
    destruct (truthy (strip (answers_get answers i))) eqn:E; [|reflexivity].
    destruct (nth_error questions i) as [q|] eqn:Hq.
    + assert (HIn : In (answer_entry q (strip (answers_get answers i)))
                       (process_answers 0 questions answers [])).
      { apply process_answers_In. right. exists i, q. now repeat split. }
      destruct (process_answers 0 questions answers []);
        [destruct HIn | discriminate].
    + apply nth_error_None in Hq. lia.
  - intros H. destruct (process_answers 0 questions answers []) as [|e es] eqn:E;
      [reflexivity|].
    assert (HIn : In e (process_answers 0 questions answers []))
      by (rewrite E; now left).
    apply process_answers_In in HIn as [[]|(j & q & Hn & Ht & _)].
    cbn [Nat.add] in Ht. rewrite forallb_forall in H.
    assert (Hj : In j (seq 0 (List.length questions))).
    { apply in_seq. split; [lia|]. cbn [Nat.add].
      apply nth_error_Some. now rewrite Hn. }
    specialize (H j Hj). now rewrite Ht in H.
Qed.

(** X16: [setup_gemini] lets the script go on with a model only when the
    client library accepted a non-empty key and built the model
    "gemini-1.5-flash".  The key is the one in the secrets; or, when the
    secrets lookup raised, the environment variable; or, when that gave no
    key or an empty one, the sidebar field, after the three notices. *)
Theorem setup_gemini_model {M : Type} (env : GeminiEnv M) (model : M) :
  snd (setup_gemini env) = Continues model ->
  exists key,
    key <> []
    /\ genai_configure env key = Returned tt
    /\ GenerativeModel env (lit "gemini-1.5-flash") = Returned model
    /\ ((secrets_api_key env = Returned key
         /\ fst (setup_gemini env) = [])
        \/ ((exists e, secrets_api_key env = Raised e)
            /\ getenv_api_key env = Some key
            /\ fst (setup_gemini env) = [])
        \/ (sidebar_text_input env = key
            /\ (secrets_api_key env = Returned []
                \/ (exists e, secrets_api_key env = Raised e)
                   /\ (getenv_api_key env = None
                       \/ getenv_api_key env = Some []))
            /\ fst (setup_gemini env) = key_prompts)).
Proof.
  unfold setup_gemini, key_prompts.
  destruct (secrets_api_key env) as [[|c k]|e] eqn:Es.
  - cbn [no_key truthy negb].
    destruct (sidebar_text_input env) as [|c k] eqn:Ei; [discriminate|].
    destruct (genai_configure env (c :: k)) as [[]|e'] eqn:Ec;
      [|discriminate].
    destruct (GenerativeModel env _) as [m|e'] eqn:Em; [|discriminate].
    cbn [fst snd]. intros H. injection H as <-. exists (c :: k).
    repeat split; try assumption; try discriminate.
    right. right. repeat split. now left.
  - cbn [no_key truthy negb].
    destruct (genai_configure env (c :: k)) as [[]|e'] eqn:Ec;
      [|discriminate].
    destruct (GenerativeModel env _) as [m|e'] eqn:Em; [|discriminate].
    cbn [fst snd]. intros H. injection H as <-. exists (c :: k).
    repeat split; try assumption; try discriminate. now left.
  - destruct (getenv_api_key env) as [[|c k]|] eqn:Eg;
      cbn [no_key truthy negb].
    + destruct (sidebar_text_input env) as [|c k] eqn:Ei; [discriminate|].
      destruct (genai_configure env (c :: k)) as [[]|e'] eqn:Ec;
        [|discriminate].
      destruct (GenerativeModel env _) as [m|e'] eqn:Em; [|discriminate].
      cbn [fst snd]. intros H. injection H as <-. exists (c :: k).
      repeat split; try assumption; try discriminate.
      right. right. repeat split. right. split; [now exists e | now right].
    + destruct (genai_configure env (c :: k)) as [[]|e'] eqn:Ec;
        [|discriminate].
      destruct (GenerativeModel env _) as [m|e'] eqn:Em; [|discriminate].
      cbn [fst snd]. intros H. injection H as <-. exists (c :: k).
      repeat split; try assumption; try discriminate.
      right. left. repeat split. now exists e.
    + destruct (sidebar_text_input env) as [|c k] eqn:Ei; [discriminate|].
      destruct (genai_configure env (c :: k)) as [[]|e'] eqn:Ec;
        [|discriminate].
      destruct (GenerativeModel env _) as [m|e'] eqn:Em; [|discriminate].
      cbn [fst snd]. intros H. injection H as <-. exists (c :: k).
      repeat split; try assumption; try discriminate.
      right. right. repeat split. right. split; [now exists e | now left].
Qed.

(** X16 where the key comes from the environment. *)
Lemma setup_gemini_model_witness :
  exists key,
    key <> []
    /\ genai_configure env_with_variable key = Returned tt
    /\ GenerativeModel env_with_variable (lit "gemini-1.5-flash")
       = Returned 7%nat
    /\ ((secrets_api_key env_with_variable = Returned key
         /\ fst (setup_gemini env_with_variable) = [])
        \/ ((exists e, secrets_api_key env_with_variable = Raised e)
            /\ getenv_api_key env_with_variable = Some key
            /\ fst (setup_gemini env_with_variable) = [])
        \/ (sidebar_text_input env_with_variable = key
            /\ (secrets_api_key env_with_variable = Returned []
                \/ (exists e, secrets_api_key env_with_variable = Raised e)
                   /\ (getenv_api_key env_with_variable = None
                       \/ getenv_api_key env_with_variable = Some []))
            /\ fst (setup_gemini env_with_variable) = key_prompts)).
Proof.
  apply (setup_gemini_model env_with_variable 7%nat). reflexivity.
Defined.

(** X17: the environment variable is read only when the secrets lookup
    raises.  If the lookup returns, be it the empty string, the result of
    [setup_gemini] is the same whatever the variable holds (an empty
    secret sends the user to the sidebar field even with the variable
    set). *)
Theorem setup_gemini_secrets_first {M : Type} (env : GeminiEnv M)
  (secret : str) (variable : option str) :
  secrets_api_key env = Returned secret ->
  setup_gemini env
  = setup_gemini
      {| secrets_api_key := secrets_api_key env;
         getenv_api_key := variable;
         sidebar_text_input := sidebar_text_input env;
         genai_configure := genai_configure env;
         GenerativeModel := GenerativeModel env |}.
Proof.
  intros H. unfold setup_gemini. cbn [secrets_api_key sidebar_text_input
    genai_configure GenerativeModel getenv_api_key].
  now rewrite H.
Qed.

(** X17 with an empty secret: the variable is set, and the script stops
    after the three notices all the same. *)
Lemma setup_gemini_secrets_first_witness :
  setup_gemini
    {| secrets_api_key := Returned [];
       getenv_api_key := None;
       sidebar_text_input := [];
       genai_configure := fun _ => Returned tt;
       GenerativeModel := fun _ => Returned 7%nat |}
  = setup_gemini
      {| secrets_api_key := Returned [];
         getenv_api_key := Some (lit "AIza-from-env");
         sidebar_text_input := [];
         genai_configure := fun _ => Returned tt;
         GenerativeModel := fun _ => Returned 7%nat |}
  /\ setup_gemini
       {| secrets_api_key := Returned [];
          getenv_api_key := Some (lit "AIza-from-env");
          sidebar_text_input := [];
          genai_configure := fun _ => Returned tt;
          GenerativeModel := fun _ => Returned 7%nat |}
     = (key_prompts, Stops).
Proof.
  split; [|reflexivity].
  apply (setup_gemini_secrets_first
           {| secrets_api_key := Returned [];
              getenv_api_key := None;
              sidebar_text_input := [];
              genai_configure := fun _ => Returned tt;
              GenerativeModel := fun _ => Returned 7%nat |}
           [] (Some (lit "AIza-from-env"))).
  reflexivity.
Defined.

(** X18: when no call fails, [extract_text_from_pdf] returns the texts of
    the pages, in page order, joined by newlines, and shows no error. *)
Theorem extract_text_from_pdf_pages {F D : Type} (fitz : FitzLib F D)
  (uploaded_file : F) (stream : bytes) (doc : D) (texts : list str) :
  file_read fitz uploaded_file = Returned stream ->
  fitz_open fitz stream = Returned doc ->
  page_count fitz doc = List.length texts ->
  (forall i t, nth_error texts i = Some t ->
               get_text fitz doc i = Returned t) ->
  doc_close fitz doc = Returned tt ->
  extract_text_from_pdf fitz uploaded_file = ([], join [NL] texts).
Proof.
  intros Hr Ho Hc Hp Hcl. unfold extract_text_from_pdf, extract_pdf_body.
  rewrite Hr. cbn [bind]. rewrite Ho. cbn [bind]. rewrite Hc.
  rewrite (read_pages fitz doc texts 0 [] Hp). cbn [bind app].
  now rewrite Hcl.
Qed.

(** X19: an exception raised while closing the document costs the text
    that was read: [extract_text_from_pdf] then returns the empty string
    and shows the error. *)
Theorem extract_text_from_pdf_close_fails {F D : Type} (fitz : FitzLib F D)
  (uploaded_file : F) (stream : bytes) (doc : D) (texts : list str)
  (e : exn) :
  file_read fitz uploaded_file = Returned stream ->
  fitz_open fitz stream = Returned doc ->
  page_count fitz doc = List.length texts ->
  (forall i t, nth_error texts i = Some t ->
               get_text fitz doc i = Returned t) ->
  doc_close fitz doc = Raised e ->
  extract_text_from_pdf fitz uploaded_file
  = ([lit "Error reading PDF: " ++ e], []).
Proof.
  intros Hr Ho Hc Hp Hcl. unfold extract_text_from_pdf, extract_pdf_body.
  rewrite Hr. cbn [bind]. rewrite Ho. cbn [bind]. rewrite Hc.
  rewrite (read_pages fitz doc texts 0 [] Hp). cbn [bind app].
  now rewrite Hcl.
Qed.

(** X18 on a file of two pages. *)
Lemma extract_text_from_pdf_pages_witness :
  extract_text_from_pdf (fitz_pages false) [lit "Jane Doe"; lit "Skills"]
  = ([], lit "Jane Doe" ++ NL :: lit "Skills").
Proof.
  apply (extract_text_from_pdf_pages (fitz_pages false)
           [lit "Jane Doe"; lit "Skills"]
           (join [12] [lit "Jane Doe"; lit "Skills"])
           [lit "Jane Doe"; lit "Skills"] [lit "Jane Doe"; lit "Skills"]);
    try reflexivity.
  intros i t H. cbn [fitz_pages get_text]. now rewrite H.
Defined.

(** X19 on the same file. *)
Lemma extract_text_from_pdf_close_fails_witness :
  extract_text_from_pdf (fitz_pages true) [lit "Jane Doe"; lit "Skills"]
  = ([lit "Error reading PDF: " ++ lit "document closed"], []).
Proof.
  apply (extract_text_from_pdf_close_fails (fitz_pages true)
           [lit "Jane Doe"; lit "Skills"]
           (join [12] [lit "Jane Doe"; lit "Skills"])
           [lit "Jane Doe"; lit "Skills"] [lit "Jane Doe"; lit "Skills"]);
    try reflexivity.
  intros i t H. cbn [fitz_pages get_text]. now rewrite H.
Defined.

(** X20: [main] gives a file up ("Could not extract text from file")
    exactly when the text its extractor returned is empty or whitespace
    only, which is the case whenever the extractor failed; otherwise it
    goes on with the normalised text. *)
Theorem main_resume_text_given_up {F D1 D2 : Type} (fitz : FitzLib F D1)
  (reader : DocxReader F D2) (file_type : F -> str) (uploaded_file : F) :
  let extracted :=
    if str_eqb (file_type uploaded_file) (lit "application/pdf")
    then extract_text_from_pdf fitz uploaded_file
    else extract_text_from_docx reader uploaded_file in
  (snd (main_resume_text fitz reader file_type uploaded_file) = None
   <-> forallb isspace (snd extracted) = true)
  /\ (fst extracted <> [] ->
      main_resume_text fitz reader file_type uploaded_file
      = (fst extracted ++ [lit "Could not extract text from file"], None))
  /\ forall resume_text,
       snd (main_resume_text fitz reader file_type uploaded_file)
       = Some resume_text ->
       resume_text = clean_text (snd extracted) /\ resume_text <> [].
Proof.
  cbv zeta. unfold main_resume_text.
  set (extracted := if str_eqb _ _ then _ else _).
  assert (Hfail : fst extracted <> [] -> snd extracted = []).
  { subst extracted. unfold extract_text_from_pdf, extract_text_from_docx.
    destruct (str_eqb _ _).
    - destruct (extract_pdf_body _ _); cbn; [now intros H | reflexivity].
    - destruct (open_document _ _); cbn; [now intros H | reflexivity]. }
  destruct extracted as [shown text]. cbn [fst snd] in *.
  pose proof (clean_text_normal text) as (_ & _ & Ht).
  assert (V : filter visible (clean_text text) = filter visible text).
  { rewrite clean_text_steps, strip_visible, squeeze_visible.
    apply collapse_blank_visible. }
  destruct (clean_text text) as [|c r] eqn:E; cbn [truthy negb fst snd].
  - split; [split|split].
    + intros _. apply filter_visible_nil. now rewrite <- V.
    + reflexivity.
    + reflexivity.
    + intros rt Hrt. discriminate.
  - split; [split|split].
    + discriminate.
    + intros Hw. rewrite (filter_visible_spaces _ Hw) in V.
      apply filter_visible_nil in V.
      unfold strip, lstrip in Ht. rewrite (dropwhile_all _ _ V) in Ht.
      discriminate Ht.
    + intros Hs. rewrite (Hfail Hs) in E. discriminate.
    + intros rt Hrt. injection Hrt as <-. split; [reflexivity | discriminate].
Qed.

(** X20 on a PDF whose document cannot be closed: both errors are shown and
    the file is given up. *)
Lemma main_resume_text_given_up_witness :
  main_resume_text (fitz_pages true) reader_paragraphs
    (fun _ => lit "application/pdf") [lit "Jane Doe"; lit "Skills"]
  = ([ lit "Error reading PDF: " ++ lit "document closed";
       lit "Could not extract text from file" ], None).
Proof.
  apply (proj1 (proj2 (main_resume_text_given_up (fitz_pages true)
                         reader_paragraphs (fun _ => lit "application/pdf")
                         [lit "Jane Doe"; lit "Skills"]))).
  discriminate.
Defined.

(** X21: [create_docx_from_text] writes one paragraph per line of the
    text, in order, an empty paragraph for each empty or whitespace-only
    line, and then serialises once: against a python-docx that keeps the
    paragraphs it is given, the result is the serialisation of exactly
    these paragraphs, one more than the text has newlines. *)
Theorem create_docx_paragraphs (serialise : list str -> outcome bytes)
  (resume_text : str) :
  create_docx_from_text (docx_paragraphs serialise) resume_text
  = serialise (List.map paragraph_of_line (split_on NL resume_text))
  /\ List.length (List.map paragraph_of_line (split_on NL resume_text))
     = S (count_occ N.eq_dec resume_text NL).
Proof.
  split.
  - unfold create_docx_from_text.
    cbn [docx_paragraphs Document bind].
    change (for_each _ (split_on NL resume_text) [])
      with (for_each
              (fun doc line =>
                 match strip line with
                 | [] => add_paragraph (docx_paragraphs serialise) doc []
                 | _ :: _ =>
                     add_paragraph (docx_paragraphs serialise) doc line
                 end) (split_on NL resume_text) []).
    rewrite add_paragraphs. cbn [bind app save docx_paragraphs].
    destruct (serialise _); reflexivity.
  - now rewrite length_map, split_on_length.
Qed.

(** X22: what [create_docx_from_text] writes, read by
    [extract_text_from_docx].  Let the file be what the writer saved, and
    let the document opened from it hold the paragraphs of whatever was
    serialised into that file.  Then the text read is the text written
    with every whitespace-only line emptied, and no error is shown; it is
    the text itself exactly when every whitespace-only line of it is
    empty. *)
Theorem docx_paragraphs_round_trip {D : Type}
  (serialise : list str -> outcome bytes) (reader : DocxReader bytes D)
  (resume_text : str) (file : bytes) (doc : D) :
  create_docx_from_text (docx_paragraphs serialise) resume_text
  = Returned file ->
  open_document reader file = Returned doc ->
  (forall paragraphs,
      serialise paragraphs = Returned file ->
      paragraph_texts reader doc = paragraphs) ->
  extract_text_from_docx reader file
  = ([], join [NL] (List.map paragraph_of_line (split_on NL resume_text)))
  /\ (join [NL] (List.map paragraph_of_line (split_on NL resume_text))
      = resume_text
      <-> forallb (fun line => truthy (strip line) || negb (truthy line))
                  (split_on NL resume_text) = true).
Proof.
  intros Hw Ho Hlaw. split.
  - rewrite create_docx_serialises in Hw.
    unfold extract_text_from_docx. now rewrite Ho, (Hlaw _ Hw).
  - rewrite <- paragraphs_are_lines. split.
    + intros H.
      destruct (split_on_cons NL resume_text) as (f & fs & E).
      assert (Hfree : forallb (free_of NL)
                        (List.map paragraph_of_line (split_on NL resume_text))
                      = true).
      { pose proof (split_on_all_free NL resume_text) as Ha.
        rewrite forallb_forall in *. intros p Hin.
        apply in_map_iff in Hin as (l & <- & Hl).
        apply paragraph_of_line_free. now apply Ha. }
      apply (f_equal (split_on NL)) in H. rewrite E in *.
      cbn [List.map] in *. now rewrite (split_on_join NL _ _ Hfree) in H.
    + intros H. rewrite H. apply join_split_on.
Qed.

(** X22 with the stand-in file format: a text with a line of three spaces
    comes back with that line emptied. *)
Lemma docx_paragraphs_round_trip_witness :
  extract_text_from_docx records_reader
    (join [12] [lit "Jane Doe"; []; lit "Skills"])
  = ([], join [NL] (List.map paragraph_of_line
                      (split_on NL (lit "Jane Doe
   
Skills"))))
  /\ join [NL] (List.map paragraph_of_line
                  (split_on NL (lit "Jane Doe
   
Skills")))
     = lit "Jane Doe

Skills".
Proof.
  split; [|reflexivity].
  apply (proj1 (docx_paragraphs_round_trip records_serialise records_reader
                  (lit "Jane Doe
   
Skills") (join [12] [lit "Jane Doe"; []; lit "Skills"])
                  [lit "Jane Doe"; []; lit "Skills"] eq_refl eq_refl
                  (records_law 74 (lit "ane Doe" ++ 12 :: 12 :: lit "Skills")))).
Defined.

(** X23: the preview of the extracted text agrees with the text on its
    first 2000 characters and has at most 2003; it is the text itself when
    that has at most 2000 characters, and otherwise its first 2000
    characters followed by "...", 2003 characters in all. *)
Theorem main_preview_bounds (resume_text : str) :
  (List.length (main_preview resume_text) <= 2003)%nat
  /\ firstn 2000 (main_preview resume_text) = firstn 2000 resume_text
  /\ if (List.length resume_text <=? 2000)%nat
     then main_preview resume_text = resume_text
     else main_preview resume_text = firstn 2000 resume_text ++ lit "..."
          /\ List.length (firstn 2000 resume_text) = 2000%nat
          /\ List.length (main_preview resume_text) = 2003%nat.
Proof.
  unfold main_preview. remember 2000%nat as n eqn:Hn.
  assert (H3 : List.length (lit "...") = 3%nat) by reflexivity.
  destruct (Nat.ltb_spec n (List.length resume_text)) as [Hlt|Hle].
  - assert (Hf : List.length (firstn n resume_text) = n)
      by (rewrite length_firstn; lia).
    split; [|split].
    + rewrite length_app, Hf, H3. subst n.
      apply (Nat.eq_le_incl (2000 + 3) 2003). reflexivity.
    + rewrite firstn_app, Hf, Nat.sub_diag. cbn [firstn].
      rewrite app_nil_r. rewrite firstn_firstn, Nat.min_id. reflexivity.
    + destruct (Nat.leb_spec (List.length resume_text) n); [lia|].
      split; [reflexivity|]. split; [exact Hf|].
      rewrite length_app, Hf, H3. subst n. reflexivity.
  - rewrite app_nil_r, !(firstn_all2 resume_text Hle).
    split; [|split].
    + subst n. apply (Nat.le_trans _ 2000); [exact Hle|].
      apply Nat.leb_le. vm_compute. reflexivity.
    + reflexivity.
    + destruct (Nat.leb_spec (List.length resume_text) n); [reflexivity|lia].
Qed.
